(** * satellite-sim-interface: the live feed client of [app/page.tsx]

    A shallow embedding of the page component's connection manager
    (the [useEffect] body of [Home]): the WebSocket handlers, the message
    classifier, the altitude normalization, the position store and the
    part of the view that lists the store.

    The pieces of the JavaScript runtime the component calls ([replace]
    and [trim] of strings, [parseFloat], [JSON.parse], [Map],
    [setTimeout], [toFixed]) are written out after ECMAScript, so that
    the handlers can be evaluated on concrete payloads. *)

From Stdlib Require Import List ZArith NArith PArith QArith Qabs Qround.
From Stdlib Require Import Bool Lia String Ascii DecimalString.
Import ListNotations.

Local Open Scope Z_scope.
Local Set Warnings "-register-all".

(** ** JavaScript strings

    A JavaScript string is a sequence of UTF-16 code units. *)

Definition jsstring := list N.

(** [js "km"] is the string literal ['km'] (ASCII text only). *)
Definition js (s : string) : jsstring :=
  List.map N_of_ascii (list_ascii_of_string s).

(** A payload literal: an apostrophe in the text stands for the double
    quote of the JSON text, so [json_text "{'norad':5}"] is the payload
    [{"norad":5}]. *)
Definition json_text (s : string) : jsstring :=
  List.map (fun c => if N.eqb c 39 then 34%N else c) (js s).

Fixpoint jsstring_eqb (a b : jsstring) : bool :=
  match a, b with
  | [], [] => true
  | x :: a', y :: b' => N.eqb x y && jsstring_eqb a' b'
  | _, _ => false
  end.

(** ECMAScript WhiteSpace and LineTerminator code points, the ones
    [trim] and [parseFloat] strip. *)
Definition is_whitespace (c : N) : bool :=
  existsb (N.eqb c)
    [9; 10; 11; 12; 13; 32; 160; 5760; 8232; 8233; 8239; 8287; 12288; 65279]%N
  || (8192 <=? c)%N && (c <=? 8202)%N.

Fixpoint trimStart (s : jsstring) : jsstring :=
  match s with
  | c :: r => if is_whitespace c then trimStart r else s
  | [] => []
  end.

Definition trimEnd (s : jsstring) : jsstring := rev (trimStart (rev s)).

(** [String.prototype.trim]. *)
Definition trim (s : jsstring) : jsstring := trimEnd (trimStart s).

Fixpoint starts_with (p s : jsstring) : bool :=
  match p, s with
  | [], _ => true
  | x :: p', y :: s' => N.eqb x y && starts_with p' s'
  | _ :: _, [] => false
  end.

(** [s.replace(pat, rep)] for a string pattern and a replacement with no
    [$] pattern in it: only the first occurrence of [pat] is replaced. *)
Fixpoint String_replace (pat rep s : jsstring) : jsstring :=
  if starts_with pat s then rep ++ skipn (List.length pat) s
  else match s with
       | [] => []
       | c :: r => c :: String_replace pat rep r
       end.

(** ** JavaScript numbers

    A Number is NaN, an infinity, or a finite binary64 value, held as the
    rational it denotes (always in lowest terms, so that equal numbers are
    equal terms).  The two zeros are not told apart: nothing in the
    component can observe the sign of a zero. *)

Inductive Number : Type :=
| NaN
| Infinity (negative : bool)
| Finite (q : Q).

Definition pow2 (e : Z) : Q :=
  if 0 <=? e then inject_Z (2 ^ e) else Qinv (inject_Z (2 ^ (- e))).

Definition pow10 (e : Z) : Q :=
  if 0 <=? e then inject_Z (10 ^ e) else Qinv (inject_Z (10 ^ (- e))).

(** Round a positive rational [n / d] to the nearest binary64 value,
    ties to even; [None] when the result overflows. *)
Definition round_pos (n : Z) (d : Z) : option Q :=
  let e0 := Z.log2 n - Z.log2 d in
  let below := if 0 <=? e0 then n <? d * 2 ^ e0 else n * 2 ^ (- e0) <? d in
  let e := if below then e0 - 1 else e0 in
  let qe := Z.max (e - 52) (-1074) in
  let num := if 0 <=? qe then n else n * 2 ^ (- qe) in
  let den := if 0 <=? qe then d * 2 ^ qe else d in
  let m := num / den in
  let r := num mod den in
  let round_up := (den <? 2 * r) || ((den =? 2 * r) && Z.odd m) in
  let m' := if round_up then m + 1 else m in
  if (0 <=? qe) && (2 ^ 1024 <=? m' * 2 ^ qe)
  then None
  else Some (Qred (inject_Z m' * pow2 qe)).

(** The Number value for a mathematical value (ECMAScript's
    "Number value for x"). *)
Definition Number_of_Q (x : Q) : Number :=
  let n := Qnum x in
  let d := Z.pos (Qden x) in
  if n =? 0 then Finite 0
  else if 0 <? n
       then match round_pos n d with
            | Some q => Finite q
            | None => Infinity false
            end
       else match round_pos (- n) d with
            | Some q => Finite (Qred (Qopp q))
            | None => Infinity true
            end.

Definition Number_of_Z (n : Z) : Number := Number_of_Q (inject_Z n).

(** ** Decimal literals *)

Definition is_digit (c : N) : bool := (48 <=? c)%N && (c <=? 57)%N.

(** The longest run of decimal digits at the head of [s], and the rest. *)
Fixpoint take_digits (s : jsstring) : jsstring * jsstring :=
  match s with
  | c :: r =>
      if is_digit c
      then let (ds, rest) := take_digits r in (c :: ds, rest)
      else ([], s)
  | [] => ([], [])
  end.

Definition digits_value (ds : jsstring) : Z :=
  fold_left (fun acc c => 10 * acc + (Z.of_N c - 48)) ds 0.

(** An ExponentPart at the head of [s] if there is a whole one
    ([e] or [E], an optional sign, at least one digit): its value and the
    rest; otherwise exponent 0 and [s] untouched. *)
Definition take_exponent (s : jsstring) : Z * jsstring :=
  match s with
  | c :: r =>
      if N.eqb c 101 || N.eqb c 69
      then
        let signed :=
          match r with
          | sg :: r' =>
              if N.eqb sg 43 then (1, r')
              else if N.eqb sg 45 then (-1, r')
              else (1, r)
          | [] => (1, r)
          end in
        let (ds, rest) := take_digits (snd signed) in
        match ds with
        | [] => (0, s)
        | _ => (fst signed * digits_value ds, rest)
        end
      else (0, s)
  | [] => (0, s)
  end.

(** The mathematical value of digits [ip . fp] times ten to [ex]. *)
Definition decimal_MV (ip fp : jsstring) (ex : Z) : Q :=
  inject_Z (digits_value (ip ++ fp)) * pow10 (ex - Z.of_nat (List.length fp)).

(** The longest prefix of [s] that is a StrUnsignedDecimalLiteral, as the
    Number it denotes with the given sign; [None] when no prefix is one. *)
Definition StrUnsignedDecimalLiteral (negative : bool) (s : jsstring)
  : option Number :=
  let signed (x : Q) := Number_of_Q (if negative then Qopp x else x) in
  if starts_with (js "Infinity") s then Some (Infinity negative)
  else
    let (ip, r1) := take_digits s in
    match r1 with
    | c :: r2 =>
        if N.eqb c 46
        then
          let (fp, r3) := take_digits r2 in
          match ip, fp with
          | [], [] => None
          | _, _ => Some (signed (decimal_MV ip fp (fst (take_exponent r3))))
          end
        else
          match ip with
          | [] => None
          | _ => Some (signed (decimal_MV ip [] (fst (take_exponent r1))))
          end
    | [] =>
        match ip with
        | [] => None
        | _ => Some (signed (decimal_MV ip [] 0))
        end
    end.

(** The global [parseFloat] on a string argument. *)
Definition parseFloat (input : jsstring) : Number :=
  let s := trimStart input in
  let parsed :=
    match s with
    | c :: r =>
        if N.eqb c 43 then StrUnsignedDecimalLiteral false r
        else if N.eqb c 45 then StrUnsignedDecimalLiteral true r
        else StrUnsignedDecimalLiteral false s
    | [] => None
    end in
  match parsed with
  | Some n => n
  | None => NaN
  end.

(** ** JavaScript values

    The values the component handles: what [JSON.parse] builds, NaN and
    the infinities (which [parseFloat] can return) and [undefined] (what
    reading a missing property gives). *)

Inductive Value : Type :=
| VUndefined
| VNull
| VBool (b : bool)
| VNumber (n : Number)
| VString (s : jsstring)
| VArray (items : list Value)
| VObject (members : list (jsstring * Value)).

(** Insertion-ordered association lists, the shape of both a JavaScript
    object's own properties and a [Map]: setting a key that is present
    replaces its value in place, setting a new key appends it. *)
Section AList.
Context {K V : Type}.
Variable eqb : K -> K -> bool.

Fixpoint alist_get (k : K) (l : list (K * V)) : option V :=
  match l with
  | [] => None
  | (k', v) :: r => if eqb k k' then Some v else alist_get k r
  end.

Definition alist_has (k : K) (l : list (K * V)) : bool :=
  match alist_get k l with
  | Some _ => true
  | None => false
  end.

Fixpoint alist_set (k : K) (v : V) (l : list (K * V)) : list (K * V) :=
  match l with
  | [] => [(k, v)]
  | (k', v') :: r =>
      if eqb k k' then (k, v) :: r else (k', v') :: alist_set k v r
  end.

(** How many entries of [l] have key [k]. *)
Definition alist_count (k : K) (l : list (K * V)) : nat :=
  List.length (filter (fun e => eqb k (fst e)) l).

End AList.

(** [name in v] for an object or array built by [JSON.parse] and one of
    the names the component asks for, none of which is a property of
    [Object.prototype] or [Array.prototype] or an array index; [None] when
    [v] is not an object: the [in] operator throws a TypeError there. *)
Definition has_property (name : jsstring) (v : Value) : option bool :=
  match v with
  | VObject members => Some (alist_has jsstring_eqb name members)
  | VArray _ => Some false
  | _ => None
  end.

(** [v.name] for the same values and names. *)
Definition get_property (name : jsstring) (v : Value) : Value :=
  match v with
  | VObject members =>
      match alist_get jsstring_eqb name members with
      | Some x => x
      | None => VUndefined
      end
  | _ => VUndefined
  end.

(** ** JSON.parse *)

Definition is_json_ws (c : N) : bool :=
  N.eqb c 9 || N.eqb c 10 || N.eqb c 13 || N.eqb c 32.

Fixpoint skip_ws (s : jsstring) : jsstring :=
  match s with
  | c :: r => if is_json_ws c then skip_ws r else s
  | [] => []
  end.

Definition hex_digit (c : N) : option N :=
  if (48 <=? c)%N && (c <=? 57)%N then Some (c - 48)%N
  else if (65 <=? c)%N && (c <=? 70)%N then Some (c - 55)%N
  else if (97 <=? c)%N && (c <=? 102)%N then Some (c - 87)%N
  else None.

Definition hex4 (a b c d : N) : option N :=
  match hex_digit a, hex_digit b, hex_digit c, hex_digit d with
  | Some x, Some y, Some z, Some w => Some (((x * 16 + y) * 16 + z) * 16 + w)%N
  | _, _, _, _ => None
  end.

Definition simple_escape (c : N) : option N :=
  if N.eqb c 34 then Some 34%N
  else if N.eqb c 92 then Some 92%N
  else if N.eqb c 47 then Some 47%N
  else if N.eqb c 98 then Some 8%N
  else if N.eqb c 102 then Some 12%N
  else if N.eqb c 110 then Some 10%N
  else if N.eqb c 114 then Some 13%N
  else if N.eqb c 116 then Some 9%N
  else None.

(** The characters of a JSON string after its opening quote, up to the
    closing one: the string (accumulated in reverse) and the rest. *)
Fixpoint json_string_body (s acc : jsstring) : option (jsstring * jsstring) :=
  match s with
  | [] => None
  | c :: r =>
      if N.eqb c 34 then Some (rev acc, r)
      else if N.eqb c 92 then
        match r with
        | [] => None
        | e :: r' =>
            if N.eqb e 117 then
              match r' with
              | h1 :: h2 :: h3 :: h4 :: r'' =>
                  match hex4 h1 h2 h3 h4 with
                  | Some u => json_string_body r'' (u :: acc)
                  | None => None
                  end
              | _ => None
              end
            else
              match simple_escape e with
              | Some x => json_string_body r' (x :: acc)
              | None => None
              end
        end
      else if (c <? 32)%N then None
      else json_string_body r (c :: acc)
  end.

(** A JSON number at the head of [s] (after its optional minus sign):
    [0] or a digit run with no leading zero, an optional fraction, an
    optional exponent. *)
Definition json_number (negative : bool) (s : jsstring)
  : option (Value * jsstring) :=
  let (ip, r1) := take_digits s in
  let leading_zero :=
    match ip with
    | z :: _ :: _ => N.eqb z 48
    | _ => false
    end in
  match ip with
  | [] => None
  | _ =>
      if leading_zero then None
      else
        let frac :=
          match r1 with
          | c :: r2 =>
              if N.eqb c 46
              then let (fp, r3) := take_digits r2 in
                   match fp with
                   | [] => None
                   | _ => Some (fp, r3)
                   end
              else Some ([], r1)
          | [] => Some ([], r1)
          end in
        match frac with
        | None => None
        | Some (fp, r3) =>
            let exponent :=
              match r3 with
              | c :: _ =>
                  if N.eqb c 101 || N.eqb c 69
                  then match take_exponent r3 with
                       | (ex, rest) =>
                           if Nat.eqb (List.length rest) (List.length r3)
                           then None
                           else Some (ex, rest)
                       end
                  else Some (0, r3)
              | [] => Some (0, r3)
              end in
            match exponent with
            | None => None
            | Some (ex, rest) =>
                let mv := decimal_MV ip fp ex in
                Some (VNumber (Number_of_Q (if negative then Qopp mv else mv)),
                      rest)
            end
        end
  end.

(** Recursive descent over the JSON grammar.  Every recursive call is on
    a strictly shorter text, so fuel above the length of the text is never
    used up. *)
Fixpoint json_value (fuel : nat) (s : jsstring) {struct fuel}
  : option (Value * jsstring) :=
  match fuel with
  | O => None
  | S f =>
      match skip_ws s with
      | [] => None
      | c :: r =>
          if N.eqb c 123 then
            match skip_ws r with
            | c' :: r' =>
                if N.eqb c' 125 then Some (VObject [], r')
                else
                  match json_member f r with
                  | Some (k, v, r2) => json_members f r2 [(k, v)]
                  | None => None
                  end
            | [] => None
            end
          else if N.eqb c 91 then
            match skip_ws r with
            | c' :: r' =>
                if N.eqb c' 93 then Some (VArray [], r')
                else
                  match json_value f r with
                  | Some (v, r2) => json_elements f r2 [v]
                  | None => None
                  end
            | [] => None
            end
          else if N.eqb c 34 then
            match json_string_body r [] with
            | Some (str, r') => Some (VString str, r')
            | None => None
            end
          else if N.eqb c 45 then json_number true r
          else if is_digit c then json_number false (c :: r)
          else if starts_with (js "true") (c :: r)
               then Some (VBool true, skipn 4 (c :: r))
          else if starts_with (js "false") (c :: r)
               then Some (VBool false, skipn 5 (c :: r))
          else if starts_with (js "null") (c :: r)
               then Some (VNull, skipn 4 (c :: r))
          else None
      end
  end
with json_member (fuel : nat) (s : jsstring) {struct fuel}
  : option (jsstring * Value * jsstring) :=
  match fuel with
  | O => None
  | S f =>
      match skip_ws s with
      | q :: r =>
          if N.eqb q 34 then
            match json_string_body r [] with
            | Some (k, r1) =>
                match skip_ws r1 with
                | colon :: r2 =>
                    if N.eqb colon 58 then
                      match json_value f r2 with
                      | Some (v, r3) => Some (k, v, r3)
                      | None => None
                      end
                    else None
                | [] => None
                end
            | None => None
            end
          else None
      | [] => None
      end
  end
with json_members (fuel : nat) (s : jsstring)
       (acc : list (jsstring * Value)) {struct fuel}
  : option (Value * jsstring) :=
  match fuel with
  | O => None
  | S f =>
      match skip_ws s with
      | c :: r =>
          if N.eqb c 125 then Some (VObject acc, r)
          else if N.eqb c 44 then
            match json_member f r with
            | Some (k, v, r2) =>
                json_members f r2 (alist_set jsstring_eqb k v acc)
            | None => None
            end
          else None
      | [] => None
      end
  end
with json_elements (fuel : nat) (s : jsstring) (acc : list Value)
       {struct fuel} : option (Value * jsstring) :=
  match fuel with
  | O => None
  | S f =>
      match skip_ws s with
      | c :: r =>
          if N.eqb c 93 then Some (VArray (rev acc), r)
          else if N.eqb c 44 then
            match json_value f r with
            | Some (v, r2) => json_elements f r2 (v :: acc)
            | None => None
            end
          else None
      | [] => None
      end
  end.

(** [JSON.parse(text)]: [None] stands for the SyntaxError it throws. *)
Definition JSON_parse (text : jsstring) : option Value :=
  match json_value (S (List.length text)) text with
  | Some (v, rest) =>
      match skip_ws rest with
      | [] => Some v
      | _ :: _ => None
      end
  | None => None
  end.

(** ** The component's state *)

Definition Number_eqb (a b : Number) : bool :=
  match a, b with
  | NaN, NaN => true
  | Infinity x, Infinity y => Bool.eqb x y
  | Finite p, Finite q => Z.eqb (Qnum p) (Qnum q) && Pos.eqb (Qden p) (Qden q)
  | _, _ => false
  end.

(** What a [Map] compares keys by (SameValueZero): a primitive by value,
    an object or array by identity. *)
Inductive Key : Type :=
| KUndefined
| KNull
| KBool (b : bool)
| KNumber (n : Number)
| KString (s : jsstring)
| KObject (ref : nat).

Definition Key_eqb (a b : Key) : bool :=
  match a, b with
  | KUndefined, KUndefined => true
  | KNull, KNull => true
  | KBool x, KBool y => Bool.eqb x y
  | KNumber x, KNumber y => Number_eqb x y
  | KString x, KString y => jsstring_eqb x y
  | KObject x, KObject y => Nat.eqb x y
  | _, _ => false
  end.

(** [interface SatelliteData].  The fields hold whatever the message
    carried: nothing checks the declared types at run time. *)
Record SatelliteData : Type := {
  name : Value;
  norad : Value;
  lat : Value;
  lon : Value;
  alt : Value;
  timestamp : Z
}.

(** [Map<number, SatelliteData>]. *)
Definition SatelliteMap := list (Key * SatelliteData).

Definition Map_get (k : Key) (m : SatelliteMap) : option SatelliteData :=
  alist_get Key_eqb k m.

Definition Map_set (k : Key) (v : SatelliteData) (m : SatelliteMap)
  : SatelliteMap := alist_set Key_eqb k v m.

Definition Map_size (m : SatelliteMap) : nat := List.length m.

Definition Map_values (m : SatelliteMap) : list SatelliteData :=
  List.map snd m.

(** The five [useState] cells of [Home].  The message count is held as
    the integer it denotes: adding one to a Number is exact below 2^53,
    and a [Date] is held as its time value. *)
Record ReactState : Type := {
  satellites : SatelliteMap;
  connected : bool;
  connectionStatus : Value;
  messageCount : Z;
  lastMessageTime : option Z
}.

(** The two callbacks the component hands to [setTimeout]. *)
Inductive TimerCallback : Type :=
| ReconnectAfterClose
| RetryAfterFailure.

Record Timer : Type := {
  timer_id : positive;
  timer_delay : Z;
  timer_callback : TimerCallback
}.

(** The variables the effect's closures share. *)
Record Closure : Type := {
  ws : option nat;
  reconnectTimeout : option positive;
  isMounted : bool
}.

Inductive Exception : Type :=
| SyntaxError
| TypeError
| SecurityError.

Inductive ConsoleLine : Type :=
| LogConnected
| LogReceivedMessage (newCount : Z)
| LogConnectionStatus (status : Value)
| WarnUnknownFormat (data : Value)
| ErrorParsing (error : Exception)
| ErrorRawMessage (data : jsstring)
| ErrorWebSocket
| LogDisconnected (code : Z) (reason : jsstring)
| LogAttemptingReconnect
| ErrorFailedToCreate (error : Exception).

(** The part of the browser the component acts on: the timers that are
    pending, the next timer handle ([setTimeout] returns an integer
    greater than zero), how many WebSocket objects were constructed (a
    socket is named by its rank), the sockets [close()] was called on,
    how many object identities were handed out, and the console. *)
Record Host : Type := {
  timers : list Timer;
  next_timer : positive;
  sockets : nat;
  closed : list nat;
  objects : nat;
  console : list ConsoleLine
}.

Record State : Type := {
  ui : ReactState;
  vars : Closure;
  host : Host
}.

(** ** Handlers as state transformers that may throw *)

Inductive Outcome (A : Type) : Type :=
| Return (a : A)
| Throw (e : Exception).
Arguments Return {A} a.
Arguments Throw {A} e.

Definition Js (A : Type) : Type := State -> Outcome A * State.

Definition ret {A} (a : A) : Js A := fun st => (Return a, st).

Definition throw {A} (e : Exception) : Js A := fun st => (Throw e, st).

Definition bind {A B} (m : Js A) (k : A -> Js B) : Js B :=
  fun st =>
    match m st with
    | (Return a, st') => k a st'
    | (Throw e, st') => (Throw e, st')
    end.

Definition try_catch {A} (body : Js A) (handler : Exception -> Js A) : Js A :=
  fun st =>
    match body st with
    | (Return a, st') => (Return a, st')
    | (Throw e, st') => handler e st'
    end.

Declare Scope js_scope.
Delimit Scope js_scope with js.
Notation "x <- m ;; k" := (bind m (fun x => k))
  (at level 61, m at next level, right associativity) : js_scope.
Notation "m ;; k" := (bind m (fun _ => k))
  (at level 61, right associativity) : js_scope.

Definition read {A} (f : State -> A) : Js A := fun st => (Return (f st), st).

Definition modify (f : State -> State) : Js unit :=
  fun st => (Return tt, f st).

Definition exec {A} (m : Js A) (st : State) : State := snd (m st).

Definition set_ui (f : ReactState -> ReactState) : Js unit :=
  modify (fun st => {| ui := f (ui st); vars := vars st; host := host st |}).

Definition set_vars (f : Closure -> Closure) : Js unit :=
  modify (fun st => {| ui := ui st; vars := f (vars st); host := host st |}).

Definition set_host (f : Host -> Host) : Js unit :=
  modify (fun st => {| ui := ui st; vars := vars st; host := f (host st) |}).

(** The state setters. *)
Definition setSatellites (f : SatelliteMap -> SatelliteMap) : Js unit :=
  set_ui (fun u =>
    {| satellites := f (satellites u); connected := connected u;
       connectionStatus := connectionStatus u;
       messageCount := messageCount u;
       lastMessageTime := lastMessageTime u |}).

Definition setConnected (b : bool) : Js unit :=
  set_ui (fun u =>
    {| satellites := satellites u; connected := b;
       connectionStatus := connectionStatus u;
       messageCount := messageCount u;
       lastMessageTime := lastMessageTime u |}).

Definition setConnectionStatus (v : Value) : Js unit :=
  set_ui (fun u =>
    {| satellites := satellites u; connected := connected u;
       connectionStatus := v;
       messageCount := messageCount u;
       lastMessageTime := lastMessageTime u |}).

Definition setMessageCount (f : Z -> Z) : Js unit :=
  set_ui (fun u =>
    {| satellites := satellites u; connected := connected u;
       connectionStatus := connectionStatus u;
       messageCount := f (messageCount u);
       lastMessageTime := lastMessageTime u |}).

Definition setLastMessageTime (t : option Z) : Js unit :=
  set_ui (fun u =>
    {| satellites := satellites u; connected := connected u;
       connectionStatus := connectionStatus u;
       messageCount := messageCount u;
       lastMessageTime := t |}).

(** The closure variables. *)
Definition assign_ws (s : option nat) : Js unit :=
  set_vars (fun c =>
    {| ws := s; reconnectTimeout := reconnectTimeout c;
       isMounted := isMounted c |}).

Definition assign_reconnectTimeout (t : option positive) : Js unit :=
  set_vars (fun c =>
    {| ws := ws c; reconnectTimeout := t; isMounted := isMounted c |}).

Definition assign_isMounted (b : bool) : Js unit :=
  set_vars (fun c =>
    {| ws := ws c; reconnectTimeout := reconnectTimeout c; isMounted := b |}).

(** The host's operations. *)
Definition console_line (l : ConsoleLine) : Js unit :=
  set_host (fun h =>
    {| timers := timers h; next_timer := next_timer h; sockets := sockets h;
       closed := closed h; objects := objects h;
       console := console h ++ [l] |}).

(** [setTimeout(callback, delay)]: the handle of the new pending timer. *)
Definition setTimeout (cb : TimerCallback) (delay : Z) : Js positive :=
  fun st =>
    let h := host st in
    let id := next_timer h in
    (Return id,
     {| ui := ui st; vars := vars st;
        host := {| timers := timers h ++
                     [{| timer_id := id; timer_delay := delay;
                         timer_callback := cb |}];
                   next_timer := Pos.succ id; sockets := sockets h;
                   closed := closed h; objects := objects h;
                   console := console h |} |}).

Definition remove_timer (id : positive) (l : list Timer) : list Timer :=
  filter (fun t => negb (Pos.eqb (timer_id t) id)) l.

(** [clearTimeout(id)]: nothing happens when no such timer is pending. *)
Definition clearTimeout (id : positive) : Js unit :=
  set_host (fun h =>
    {| timers := remove_timer id (timers h); next_timer := next_timer h;
       sockets := sockets h; closed := closed h; objects := objects h;
       console := console h |}).

(** A timer that fires is no longer pending. *)
Definition expire (id : positive) : Js unit :=
  set_host (fun h =>
    {| timers := remove_timer id (timers h); next_timer := next_timer h;
       sockets := sockets h; closed := closed h; objects := objects h;
       console := console h |}).

(** [new WebSocket(url)]: the new socket, or the exception the
    constructor throws when the host refuses the URL ([refused], decided
    by the browser; a SecurityError for an insecure URL on a secure
    page). *)
Definition new_WebSocket (refused : bool) : Js nat :=
  if refused then throw SecurityError
  else fun st =>
    let h := host st in
    (Return (sockets h),
     {| ui := ui st; vars := vars st;
        host := {| timers := timers h; next_timer := next_timer h;
                   sockets := S (sockets h); closed := closed h;
                   objects := objects h; console := console h |} |}).

(** [socket.close()]. *)
Definition WebSocket_close (s : nat) : Js unit :=
  set_host (fun h =>
    {| timers := timers h; next_timer := next_timer h; sockets := sockets h;
       closed := closed h ++ [s]; objects := objects h;
       console := console h |}).

(** The key [Map.prototype.set] files a value under.  Every message is
    parsed into objects of its own, so an object or array used as a key
    is one the map has not seen. *)
Definition Map_key (v : Value) : Js Key :=
  match v with
  | VUndefined => ret KUndefined
  | VNull => ret KNull
  | VBool b => ret (KBool b)
  | VNumber n => ret (KNumber n)
  | VString s => ret (KString s)
  | VArray _ | VObject _ =>
      fun st =>
        let h := host st in
        (Return (KObject (objects h)),
         {| ui := ui st; vars := vars st;
            host := {| timers := timers h; next_timer := next_timer h;
                       sockets := sockets h; closed := closed h;
                       objects := S (objects h); console := console h |} |})
  end.

(** [JSON.parse] as the handler calls it. *)
Definition JSON_parse_or_throw (text : jsstring) : Js Value :=
  match JSON_parse text with
  | Some v => ret v
  | None => throw SyntaxError
  end.

(** The [in] operator. *)
Definition in_operator (prop : jsstring) (v : Value) : Js bool :=
  match has_property prop v with
  | Some b => ret b
  | None => throw TypeError
  end.

(** [v === 'text']. *)
Definition strict_equals_string (v : Value) (text : jsstring) : bool :=
  match v with
  | VString s => jsstring_eqb s text
  | _ => false
  end.

(** ** [app/page.tsx]: the classifier *)

Local Open Scope js_scope.

Definition isSatellitePosition (msg : Value) : Js bool :=
  in_operator (js "norad") msg.

Definition isConnectionMessage (msg : Value) : Js bool :=
  has_type <- in_operator (js "type") msg ;;
  ret (has_type &&
       strict_equals_string (get_property (js "type") msg) (js "connection")).

(** ** [app/page.tsx]: the effect of [Home] *)

Definition reconnect_delay : Z := 3000.

(** The altitude as the position branch computes it ([altValue]). *)
Definition altValue (alt_field : Value) : Value :=
  match alt_field with
  | VString text =>
      VNumber (parseFloat (trim (String_replace (js "km") (js "") text)))
  | other => other
  end.

(** [connect]; [refused] tells whether the host makes the WebSocket
    constructor throw this time. *)
Definition connect (refused : bool) : Js unit :=
  try_catch
    (socket <- new_WebSocket refused ;;
     assign_ws (Some socket))
    (fun error =>
       console_line (ErrorFailedToCreate error) ;;
       mounted <- read (fun st => isMounted (vars st)) ;;
       if mounted then
         setConnectionStatus (VString (js "Failed to connect - retrying...")) ;;
         handle <- setTimeout RetryAfterFailure reconnect_delay ;;
         assign_reconnectTimeout (Some handle)
       else ret tt).

Definition ws_onopen : Js unit :=
  mounted <- read (fun st => isMounted (vars st)) ;;
  if negb mounted then ret tt
  else
    console_line LogConnected ;;
    setConnected true ;;
    setConnectionStatus (VString (js "Connected")) ;;
    pending <- read (fun st => reconnectTimeout (vars st)) ;;
    match pending with
    | Some handle =>
        clearTimeout handle ;;
        assign_reconnectTimeout None
    | None => ret tt
    end.

(** [ws.onmessage]; [data] is [event.data], and [now], [now'] are what
    the two [new Date()] of the handler read off the clock.

    The body of the [setMessageCount] updater is run where the handler
    queues it.  React runs an updater when it next renders, and may run
    it again; the state it computes is the same, but its [console.log]
    can come later and more than once.  So the console of the model tells
    that a ['Received message'] line is asked for, not how many there are
    nor where they stand among the other lines. *)
Definition ws_onmessage (data : jsstring) (now now' : Z) : Js unit :=
  mounted <- read (fun st => isMounted (vars st)) ;;
  if negb mounted then ret tt
  else
    try_catch
      (prev <- read (fun st => messageCount (ui st)) ;;
       (let newCount := prev + 1 in
        (if (newCount <=? 3)%Z
         then console_line (LogReceivedMessage newCount)
         else ret tt) ;;
        setMessageCount (fun _ => newCount)) ;;
       setLastMessageTime (Some now) ;;
       msg <- JSON_parse_or_throw data ;;
       is_connection <- isConnectionMessage msg ;;
       if is_connection then
         console_line (LogConnectionStatus (get_property (js "status") msg)) ;;
         setConnectionStatus (get_property (js "message") msg)
       else
         is_position <- isSatellitePosition msg ;;
         if is_position then
           (let satelliteData :=
              {| name := get_property (js "name") msg;
                 norad := get_property (js "norad") msg;
                 lat := get_property (js "lat") msg;
                 lon := get_property (js "lon") msg;
                 alt := altValue (get_property (js "alt") msg);
                 timestamp := now' |} in
            key <- Map_key (get_property (js "norad") msg) ;;
            setSatellites (Map_set key satelliteData))
         else console_line (WarnUnknownFormat msg))
      (fun error =>
         console_line (ErrorParsing error) ;;
         console_line (ErrorRawMessage data)).

Definition ws_onerror : Js unit :=
  mounted <- read (fun st => isMounted (vars st)) ;;
  if negb mounted then ret tt
  else
    console_line ErrorWebSocket ;;
    setConnected false ;;
    setConnectionStatus (VString (js "Connection error - retrying...")).

Definition ws_onclose (code : Z) (reason : jsstring) : Js unit :=
  mounted <- read (fun st => isMounted (vars st)) ;;
  if negb mounted then ret tt
  else
    console_line (LogDisconnected code reason) ;;
    setConnected false ;;
    setConnectionStatus (VString (js "Disconnected - reconnecting...")) ;;
    still_mounted <- read (fun st => isMounted (vars st)) ;;
    pending <- read (fun st => reconnectTimeout (vars st)) ;;
    match still_mounted, pending with
    | true, None =>
        handle <- setTimeout ReconnectAfterClose reconnect_delay ;;
        assign_reconnectTimeout (Some handle)
    | _, _ => ret tt
    end.

(** What a timer runs when it fires. *)
Definition timer_body (cb : TimerCallback) (refused : bool) : Js unit :=
  mounted <- read (fun st => isMounted (vars st)) ;;
  match cb with
  | ReconnectAfterClose =>
      if mounted then
        console_line LogAttemptingReconnect ;;
        connect refused
      else ret tt
  | RetryAfterFailure =>
      if mounted then connect refused else ret tt
  end.

(** The function the effect returns, run when the component unmounts. *)
Definition cleanup : Js unit :=
  assign_isMounted false ;;
  pending <- read (fun st => reconnectTimeout (vars st)) ;;
  match pending with
  | Some handle => clearTimeout handle
  | None => ret tt
  end ;;
  socket <- read (fun st => ws (vars st)) ;;
  match socket with
  | Some s => WebSocket_close s
  | None => ret tt
  end.

(** The state [Home] starts from, before the effect runs. *)
Definition first_render : State :=
  {| ui := {| satellites := []; connected := false;
              connectionStatus := VString (js "Disconnected");
              messageCount := 0; lastMessageTime := None |};
     vars := {| ws := None; reconnectTimeout := None; isMounted := true |};
     host := {| timers := []; next_timer := 1%positive; sockets := 0;
                closed := []; objects := 0; console := [] |} |}.

(** The effect body: declare the variables, call [connect()]. *)
Definition mount (refused : bool) : State :=
  exec (connect refused) first_render.

(** ** What the browser delivers to the component

    [data] of a message event is [event.data] as [JSON.parse] reads it:
    the text of a text frame.  [refused] of a timer event tells whether
    the WebSocket constructor throws when the callback calls
    [connect()]. *)

Inductive Event : Type :=
| SocketOpen (socket : nat)
| SocketMessage (socket : nat) (data : jsstring) (now now' : Z)
| SocketError (socket : nat)
| SocketClose (socket : nat) (code : Z) (reason : jsstring)
| TimerFires (handle : positive) (refused : bool)
| Unmount.

Definition find_timer (id : positive) (l : list Timer) : option Timer :=
  find (fun t => Pos.eqb (timer_id t) id) l.

(** A socket event runs the handler the component put on that socket
    (every socket gets the same four); a timer that fires leaves the
    pending ones and runs its callback.  An event of a socket that was
    never constructed, or of a timer that is not pending, runs nothing. *)
Definition deliver (e : Event) : Js unit :=
  match e with
  | SocketOpen s =>
      n <- read (fun st => sockets (host st)) ;;
      if (s <? n)%nat then ws_onopen else ret tt
  | SocketMessage s data now now' =>
      n <- read (fun st => sockets (host st)) ;;
      if (s <? n)%nat then ws_onmessage data now now' else ret tt
  | SocketError s =>
      n <- read (fun st => sockets (host st)) ;;
      if (s <? n)%nat then ws_onerror else ret tt
  | SocketClose s code reason =>
      n <- read (fun st => sockets (host st)) ;;
      if (s <? n)%nat then ws_onclose code reason else ret tt
  | TimerFires id refused =>
      pending <- read (fun st => find_timer id (timers (host st))) ;;
      match pending with
      | Some t =>
          expire id ;;
          timer_body (timer_callback t) refused
      | None => ret tt
      end
  | Unmount => cleanup
  end.

Definition step (st : State) (e : Event) : State := exec (deliver e) st.

Definition run (st : State) (events : list Event) : State :=
  fold_left step events st.

(** The states the component can be in: those some sequence of events
    leads to after the effect has run. *)
Definition reachable (st : State) : Prop :=
  exists refused events, st = run (mount refused) events.

Local Close Scope js_scope.

(** ** [app/page.tsx]: the list of the view *)

Definition decimal_digits (n : Z) : jsstring :=
  js (NilZero.string_of_uint (N.to_uint (Z.to_N n))).

Section View.

(** Two conversions of the host are left open: [Number::toString] (which
    [toFixed] falls back to from 1e21 on) and the locale's time format. *)
Variable Number_toString : Q -> jsstring.
Variable toLocaleTimeString : Z -> jsstring.

(** [Number.prototype.toFixed(fractionDigits)]. *)
Definition toFixed (fractionDigits : nat) (x : Number) : jsstring :=
  match x with
  | NaN => js "NaN"
  | Infinity false => js "Infinity"
  | Infinity true => js "-Infinity"
  | Finite q =>
      if Qle_bool (inject_Z (10 ^ 21)) (Qabs q) then Number_toString q
      else
        let f := Z.of_nat fractionDigits in
        let n := Qfloor (Qabs q * inject_Z (10 ^ f) + (1 # 2)) in
        let m := decimal_digits n in
        let padded :=
          repeat 48%N (S fractionDigits - List.length m) ++ m in
        let k := List.length padded in
        let text :=
          match fractionDigits with
          | O => m
          | _ => firstn (k - fractionDigits) padded ++ [46%N] ++
                 skipn (k - fractionDigits) padded
          end in
        if Qlt_le_dec q 0 then 45%N :: text else text
  end.

(** [v.toFixed(d)] on whatever a record holds: only a number has the
    method. *)
Definition call_toFixed (d : nat) (v : Value) : Outcome jsstring :=
  match v with
  | VNumber n => Return (toFixed d n)
  | _ => Throw TypeError
  end.

(** One card of the list: the children the JSX hands to React. *)
Record Card : Type := {
  card_key : Value;
  card_heading : Value;
  card_norad : Value;
  card_latitude : jsstring;
  card_longitude : jsstring;
  card_altitude : jsstring;
  card_last_update : jsstring
}.

Definition render_card (sat : SatelliteData) : Outcome Card :=
  match call_toFixed 6 (lat sat) with
  | Throw e => Throw e
  | Return la =>
      match call_toFixed 6 (lon sat) with
      | Throw e => Throw e
      | Return lo =>
          match call_toFixed 2 (alt sat) with
          | Throw e => Throw e
          | Return al =>
              Return {| card_key := norad sat;
                        card_heading := name sat;
                        card_norad := norad sat;
                        card_latitude := la;
                        card_longitude := lo;
                        card_altitude := al;
                        card_last_update :=
                          toLocaleTimeString (timestamp sat) |}
          end
      end
  end.

(** [Array.from(satellites.values()).map(sat => ...)]. *)
Fixpoint render_cards (sats : list SatelliteData) : Outcome (list Card) :=
  match sats with
  | [] => Return []
  | sat :: rest =>
      match render_card sat with
      | Throw e => Throw e
      | Return c =>
          match render_cards rest with
          | Throw e => Throw e
          | Return cs => Return (c :: cs)
          end
      end
  end.

(** The section under the heading: the placeholder (with or without its
    hint) for an empty store, the cards otherwise. *)
Inductive Listing : Type :=
| Waiting (hint : bool)
| Cards (cards : list Card).

Definition render_listing (u : ReactState) : Outcome Listing :=
  if Nat.eqb (Map_size (satellites u)) 0
  then Return (Waiting (connected u && (0 <? messageCount u)%Z))
  else match render_cards (Map_values (satellites u)) with
       | Return cs => Return (Cards cs)
       | Throw e => Throw e
       end.

End View.

(** ** The altitude normalization as the specification words it

    "If altitude is textual, strip a trailing unit suffix and surrounding
    whitespace, then parse as a floating-point number." *)

Definition ends_with (p s : jsstring) : bool := starts_with (rev p) (rev s).

Definition strip_unit_suffix (s : jsstring) : jsstring :=
  if ends_with (js "km") s then firstn (List.length s - 2) s else s.

Definition altitude_as_specified (text : jsstring) : Number :=
  parseFloat (trim (strip_unit_suffix (trim text))).

(** [pat] occurs somewhere in [s]. *)
Fixpoint occurs (pat s : jsstring) : bool :=
  starts_with pat s ||
  match s with
  | [] => false
  | _ :: r => occurs pat r
  end.

Definition all_whitespace (s : jsstring) : bool := forallb is_whitespace s.

(** ** The pending timer

    The invariant of the reconnect timer: whatever timer is pending is
    the one [reconnectTimeout] names, it is the only one, and it waits
    the reconnect delay. *)
Definition timers_tracked (st : State) : Prop :=
  timers (host st) = [] \/
  exists t, timers (host st) = [t] /\
            reconnectTimeout (vars st) = Some (timer_id t) /\
            timer_delay t = reconnect_delay.

(** ** Position messages as the feed documents them

    [interface SatellitePosition]. *)

Record SatellitePosition : Type := {
  position_name : jsstring;
  position_norad : Z;
  position_lat : Number;
  position_lon : Number;
  position_alt : Number + jsstring
}.

Definition alt_on_the_wire (p : SatellitePosition) : Value :=
  match position_alt p with
  | inl n => VNumber n
  | inr text => VString text
  end.

(** [msg] is the object the feed sends for [p]: the five fields, and no
    [type] that would make it a connection message. *)
Definition carries (msg : Value) (p : SatellitePosition) : Prop :=
  (exists members, msg = VObject members) /\
  strict_equals_string (get_property (js "type") msg) (js "connection")
    = false /\
  get_property (js "name") msg = VString (position_name p) /\
  get_property (js "norad") msg = VNumber (Number_of_Z (position_norad p)) /\
  get_property (js "lat") msg = VNumber (position_lat p) /\
  get_property (js "lon") msg = VNumber (position_lon p) /\
  get_property (js "alt") msg = alt_on_the_wire p.

Definition valid_position (data : jsstring) (p : SatellitePosition) : Prop :=
  exists msg, JSON_parse data = Some msg /\ carries msg p.

(** The record the position branch stores for [p], stamped [t]: the
    fields as sent, the altitude through the handler's [altValue]. *)
Definition stored_record (p : SatellitePosition) (t : Z) : SatelliteData :=
  {| name := VString (position_name p);
     norad := VNumber (Number_of_Z (position_norad p));
     lat := VNumber (position_lat p);
     lon := VNumber (position_lon p);
     alt := altValue (alt_on_the_wire p);
     timestamp := t |}.

(** The unit stands at the end of the text (whitespace may follow) and
    nowhere before it, as in the documented ["<float>km"]. *)
Definition unit_only_trailing (text : jsstring) : Prop :=
  exists pre post,
    text = pre ++ js "km" ++ post /\
    occurs (js "km") pre = false /\
    all_whitespace post = true.

(** The altitude of [p] has one of the two documented forms: a number,
    or text ending in the unit. *)
Definition alt_as_documented (p : SatellitePosition) : Prop :=
  match position_alt p with
  | inl _ => True
  | inr text => unit_only_trailing text
  end.

(** The altitude the specification asks for: a number as it is, a text
    through the specified normalization. *)
Definition normalized_alt (p : SatellitePosition) : Value :=
  match position_alt p with
  | inl n => VNumber n
  | inr text => VNumber (altitude_as_specified text)
  end.

(** The record the store should hold for [p], received at [t]: the
    fields of the message with the altitude normalized as specified. *)
Definition normalized (p : SatellitePosition) (t : Z) : SatelliteData :=
  {| name := VString (position_name p);
     norad := VNumber (Number_of_Z (position_norad p));
     lat := VNumber (position_lat p);
     lon := VNumber (position_lon p);
     alt := normalized_alt p;
     timestamp := t |}.

(** One message as the socket delivers it: the text and the two clock
    readings of the handler. *)
Record Delivery : Type := {
  payload : jsstring;
  clock : Z;
  clock' : Z
}.

Definition receive (st : State) (d : Delivery) : State :=
  exec (ws_onmessage (payload d) (clock d) (clock' d)) st.

(** No two entries of the store have the same key. *)
Definition store_keys_distinct (st : State) : Prop :=
  NoDup (map fst (satellites (ui st))).

(** ** Scenarios of the connection manager *)

Definition is_open (e : Event) : bool :=
  match e with
  | SocketOpen _ => true
  | _ => false
  end.

(** The feed is down when the page loads: the first socket fails and
    closes, the timer fires, the second socket fails and closes. *)
Definition feed_down_twice : list Event :=
  [SocketError 0; SocketClose 0 1006 []; TimerFires 1 false;
   SocketError 1; SocketClose 1 1006 []].

(** No timer is pending while a handle is still stored: the state in
    which a close schedules nothing. *)
Definition reconnect_dead (st : State) : Prop :=
  timers (host st) = [] /\ reconnectTimeout (vars st) <> None.

(** ** Sample payloads *)

Definition iss_at_408km : jsstring :=
  json_text "{'name':'ISS','norad':25544,'lat':1.5,'lon':2,'alt':'408km'}".

Definition iss_moved : jsstring :=
  json_text "{'name':'ISS','norad':25544,'lat':2.5,'lon':2,'alt':408.5}".

Definition iss_altitude_unknown : jsstring :=
  json_text "{'name':'ISS','norad':25544,'lat':1.5,'lon':2,'alt':'unknown'}".

Definition welcome : jsstring :=
  json_text "{'type':'connection','message':'Welcome','status':'connected'}".

(** A message of both shapes: a [type] of ['connection'] and a [norad]. *)
Definition connection_with_norad : jsstring :=
  json_text
    "{'type':'connection','message':'hello','norad':25544,'lat':1,'lon':2}".

(** ** [app/page.tsx]: the status panel of the view

    The panel shows the status text, on a background that tells whether
    the component is connected, and the counters only while connected;
    the last-message line only when a time is recorded. *)

Section StatusPanel.
Variable toLocaleTimeString : Z -> jsstring.

Record Panel : Type := {
  panel_connected : bool;
  panel_status : Value;
  panel_counters : option (Z * option jsstring)
}.

Definition render_panel (u : ReactState) : Panel :=
  {| panel_connected := connected u;
     panel_status := connectionStatus u;
     panel_counters :=
       if connected u
       then Some (messageCount u,
                  match lastMessageTime u with
                  | Some t => Some (toLocaleTimeString t)
                  | None => None
                  end)
       else None |}.

End StatusPanel.

(** ** What React does with the list

    React renders a child that is text, a number or nothing ([null],
    [undefined], a boolean), and an array of such children; handed any
    other object as a child it throws ("Objects are not valid as a React
    child") and nothing of the list is shown.  The children of a card
    that come from the message are the name and the norad. *)






(** ** Measures used by the properties *)

(** A record on which the three [toFixed] calls of a card go through. *)
Definition numeric_record (r : SatelliteData) : bool :=
  match lat r, lon r, alt r with
  | VNumber _, VNumber _, VNumber _ => true
  | _, _, _ => false
  end.

Definition is_message (e : Event) : bool :=
  match e with
  | SocketMessage _ _ _ _ => true
  | _ => false
  end.

(** The pending timer fires, if there is one; [refused] tells whether
    the constructor throws when its callback calls [connect()]. *)
Definition fire_pending (refused : bool) (st : State) : State :=
  match timers (host st) with
  | t :: _ => step st (TimerFires (timer_id t) refused)
  | [] => st
  end.

Definition all_digits (s : jsstring) : bool := forallb is_digit s.

(** The key a primitive value is filed under. *)
Definition primitive_key (v : Value) : option Key :=
  match v with
  | VUndefined => Some KUndefined
  | VNull => Some KNull
  | VBool b => Some (KBool b)
  | VNumber n => Some (KNumber n)
  | VString s => Some (KString s)
  | VArray _ | VObject _ => None
  end.

(** The record the position branch of [ws.onmessage] builds from a
    decoded message, stamped [t]. *)
Definition position_record (msg : Value) (t : Z) : SatelliteData :=
  {| name := get_property (js "name") msg;
     norad := get_property (js "norad") msg;
     lat := get_property (js "lat") msg;
     lon := get_property (js "lon") msg;
     alt := altValue (get_property (js "alt") msg);
     timestamp := t |}.

Definition hubble_at_540km : jsstring :=
  json_text "{'name':'HST','norad':20580,'lat':-28.5,'lon':77,'alt':540}".


(** A message with a [norad] and nothing else. *)
Definition norad_only : jsstring := json_text "{'norad':25544}".

Definition iss_position : SatellitePosition :=
  {| position_name := js "ISS"; position_norad := 25544;
     position_lat := Finite (3 # 2); position_lon := Finite 2;
     position_alt := inr (js "408km") |}.

Definition hubble_position : SatellitePosition :=
  {| position_name := js "HST"; position_norad := 20580;
     position_lat := Finite (-57 # 2); position_lon := Finite 77;
     position_alt := inl (Finite 540) |}.

(** * Properties *)

(** ** Equality tests *)

Lemma jsstring_eqb_eq (a b : jsstring) : jsstring_eqb a b = true <-> a = b.
Proof.
  revert b; induction a as [|x a IH]; intros [|y b]; simpl;
    try (split; [discriminate | discriminate]); try tauto.
  rewrite andb_true_iff, N.eqb_eq, IH.
  split; [intros [-> ->]; reflexivity | intros H; inversion H; auto].
Qed.

Lemma Number_eqb_eq (a b : Number) : Number_eqb a b = true <-> a = b.
Proof.
  destruct a as [|x|[p1 p2]], b as [|y|[q1 q2]]; simpl;
    try (split; [discriminate | discriminate]); try tauto.
  - rewrite Bool.eqb_true_iff. split; [intros ->; reflexivity | congruence].
  - rewrite andb_true_iff, Z.eqb_eq, Pos.eqb_eq.
    split; [intros [-> ->]; reflexivity | intros H; inversion H; auto].
Qed.

Lemma Key_eqb_eq (a b : Key) : Key_eqb a b = true <-> a = b.
Proof.
  destruct a, b; simpl; try (split; [discriminate | discriminate]);
    try tauto.
  - rewrite Bool.eqb_true_iff. split; congruence.
  - rewrite Number_eqb_eq. split; congruence.
  - rewrite jsstring_eqb_eq. split; congruence.
  - rewrite Nat.eqb_eq. split; congruence.
Qed.

Lemma Key_eqb_refl (k : Key) : Key_eqb k k = true.
Proof. apply Key_eqb_eq; reflexivity. Qed.

(** ** The parser's fuel *)

Lemma skip_ws_length (s : jsstring) :
  (List.length (skip_ws s) <= List.length s)%nat.
Proof.
  induction s as [|c s IH]; simpl; [lia|].
  destruct (is_json_ws c); simpl; lia.
Qed.

Lemma skip_ws_cons (s : jsstring) (c : N) (r : jsstring) :
  skip_ws s = c :: r -> (List.length r < List.length s)%nat.
Proof.
  intros H. pose proof (skip_ws_length s) as Hl. rewrite H in Hl.
  simpl in Hl. lia.
Qed.

Lemma take_digits_length (s : jsstring) :
  List.length s
  = (List.length (fst (take_digits s)) + List.length (snd (take_digits s)))%nat.
Proof.
  induction s as [|c s IH]; simpl; [reflexivity|].
  destruct (is_digit c); [|reflexivity].
  destruct (take_digits s) as [ds rest]. simpl in *. lia.
Qed.

Lemma take_exponent_length (s : jsstring) :
  (List.length (snd (take_exponent s)) <= List.length s)%nat.
Proof.
  destruct s as [|c r]; simpl; [lia|].
  destruct (N.eqb c 101 || N.eqb c 69); simpl; [|lia].
  set (signed := match r with
                 | [] => (1%Z, r)
                 | sg :: r' =>
                     if N.eqb sg 43 then (1%Z, r')
                     else if N.eqb sg 45 then ((-1)%Z, r') else (1%Z, r)
                 end).
  assert (Hs : (List.length (snd signed) <= List.length r)%nat).
  { unfold signed. destruct r as [|sg r']; simpl; [lia|].
    destruct (N.eqb sg 43); simpl; [lia|].
    destruct (N.eqb sg 45); simpl; lia. }
  pose proof (take_digits_length (snd signed)) as Hd.
  destruct (take_digits (snd signed)) as [ds rest]. simpl in Hd.
  destruct ds; simpl in *; lia.
Qed.

Lemma json_string_body_shorter (s acc str r : jsstring) :
  json_string_body s acc = Some (str, r) ->
  (List.length r < List.length s)%nat.
Proof.
  remember (List.length s) as n eqn:Hn.
  assert (Hle : (List.length s <= n)%nat) by lia. clear Hn.
  revert s acc Hle.
  induction n as [|n IH]; intros s acc Hle H.
  - destruct s; [discriminate | simpl in Hle; lia].
  - destruct s as [|c s]; [discriminate|].
    simpl in Hle. simpl in H.
    destruct (N.eqb c 34).
    { injection H as _ <-. simpl. lia. }
    destruct (N.eqb c 92).
    + destruct s as [|e s]; [discriminate|].
      destruct (N.eqb e 117).
      * destruct s as [|h1 [|h2 [|h3 [|h4 s]]]]; try discriminate.
        destruct (hex4 h1 h2 h3 h4); [|discriminate].
        apply IH in H; [simpl; lia | simpl in Hle; lia].
      * destruct (simple_escape e); [|discriminate].
        apply IH in H; [simpl; lia | simpl in Hle; lia].
    + destruct (N.ltb c 32); [discriminate|].
      apply IH in H; [simpl; lia | lia].
Qed.

Lemma json_number_shorter (negative : bool) (s : jsstring) (v : Value)
  (r : jsstring) :
  json_number negative s = Some (v, r) ->
  (List.length r < List.length s)%nat.
Proof.
  unfold json_number.
  pose proof (take_digits_length s) as Hd.
  destruct (take_digits s) as [ip r1]. simpl in Hd.
  destruct ip as [|d ip]; [discriminate|].
  match goal with
  | |- (if ?b then _ else _) = _ -> _ => destruct b; [discriminate|]
  end.
  assert (Hfrac : forall fp r3,
            match r1 with
            | [] => Some ([], r1)
            | c :: r2 =>
                if N.eqb c 46
                then let (fp, r3) := take_digits r2 in
                     match fp with
                     | [] => None
                     | _ :: _ => Some (fp, r3)
                     end
                else Some ([], r1)
            end = Some (fp, r3) ->
            (List.length r3 <= List.length r1)%nat).
  { intros fp r3. destruct r1 as [|c r2].
    - intros H. injection H as _ <-. lia.
    - destruct (N.eqb c 46).
      + pose proof (take_digits_length r2) as Hd2.
        destruct (take_digits r2) as [fp' r3']. simpl in Hd2.
        destruct fp'; [discriminate|].
        intros H. injection H as _ <-. simpl in *. lia.
      + intros H. injection H as _ <-. lia. }
  match goal with
  | |- match ?frac with _ => _ end = _ -> _ =>
      destruct frac as [[fp r3]|] eqn:Efrac; [|discriminate]
  end.
  specialize (Hfrac fp r3 eq_refl).
  assert (Hexp : forall ex rest,
            match r3 with
            | [] => Some (0%Z, r3)
            | c :: _ =>
                if N.eqb c 101 || N.eqb c 69
                then let (ex, rest) := take_exponent r3 in
                     if Nat.eqb (List.length rest) (List.length r3)
                     then None
                     else Some (ex, rest)
                else Some (0%Z, r3)
            end = Some (ex, rest) ->
            (List.length rest <= List.length r3)%nat).
  { intros ex rest. pose proof (take_exponent_length r3) as He.
    destruct r3 as [|c r4].
    - intros H. injection H as _ <-. lia.
    - destruct (N.eqb c 101 || N.eqb c 69).
      + destruct (take_exponent (c :: r4)) as [ex' rest']. simpl in He.
        destruct (Nat.eqb (List.length rest') (List.length (c :: r4)));
          [discriminate|].
        intros H. injection H as _ <-. exact He.
      + intros H. injection H as _ <-. lia. }
  match goal with
  | |- match ?e with _ => _ end = _ -> _ =>
      destruct e as [[ex rest]|] eqn:Eexp; [|discriminate]
  end.
  specialize (Hexp ex rest eq_refl).
  intros H. injection H as _ <-. simpl in Hd. lia.
Qed.

Lemma starts_with_skipn (p s : jsstring) :
  starts_with p s = true ->
  (List.length (skipn (List.length p) s) + List.length p
   = List.length s)%nat.
Proof.
  revert s. induction p as [|x p IH]; intros s H; simpl.
  - lia.
  - destruct s as [|y s]; [discriminate|]. simpl in H.
    apply andb_true_iff in H. destruct H as (_ & H).
    specialize (IH s H). simpl. lia.
Qed.

Ltac split_if H :=
  match type of H with
  | (if ?b then _ else _) = _ => destruct b eqn:?
  end.

Lemma json_consumes (f : nat) :
  (forall s v r, json_value f s = Some (v, r) ->
     (List.length r < List.length s)%nat) /\
  (forall s k v r, json_member f s = Some (k, v, r) ->
     (List.length r < List.length s)%nat) /\
  (forall s acc v r, json_members f s acc = Some (v, r) ->
     (List.length r < List.length s)%nat) /\
  (forall s acc v r, json_elements f s acc = Some (v, r) ->
     (List.length r < List.length s)%nat).
Proof.
  induction f as [|f (IHv & IHm & IHms & IHes)].
  { repeat split; intros; discriminate. }
  split; [|split; [|split]].
  - intros s v r H. cbn -[starts_with skipn js] in H.
    pose proof (skip_ws_length s) as Hws.
    destruct (skip_ws s) as [|c r0]; [discriminate|]. simpl in Hws.
    split_if H.
    { pose proof (skip_ws_length r0) as Hws0.
      destruct (skip_ws r0) as [|c' r']; [discriminate|]. simpl in Hws0.
      split_if H.
      - injection H as _ <-. lia.
      - destruct (json_member f r0) as [[[k v0] r2]|] eqn:Em; [|discriminate].
        apply IHm in Em. apply IHms in H. lia. }
    split_if H.
    { pose proof (skip_ws_length r0) as Hws0.
      destruct (skip_ws r0) as [|c' r']; [discriminate|]. simpl in Hws0.
      split_if H.
      - injection H as _ <-. lia.
      - destruct (json_value f r0) as [[v0 r2]|] eqn:Ev; [|discriminate].
        apply IHv in Ev. apply IHes in H. lia. }
    split_if H.
    { destruct (json_string_body r0 []) as [[str r']|] eqn:Es;
        [|discriminate].
      apply json_string_body_shorter in Es. injection H as _ <-. lia. }
    split_if H.
    { apply json_number_shorter in H. lia. }
    split_if H.
    { apply json_number_shorter in H. simpl in H. lia. }
    split_if H.
    { injection H as _ <-.
      match goal with
      | E : starts_with (js "true") _ = true |- _ =>
          pose proof (starts_with_skipn _ _ E) as Hk
      end.
      change (List.length (js "true")) with 4%nat in Hk.
      simpl in Hk |- *. lia. }
    split_if H.
    { injection H as _ <-.
      match goal with
      | E : starts_with (js "false") _ = true |- _ =>
          pose proof (starts_with_skipn _ _ E) as Hk
      end.
      change (List.length (js "false")) with 5%nat in Hk.
      simpl in Hk |- *. lia. }
    split_if H; [|discriminate].
    injection H as _ <-.
    match goal with
    | E : starts_with (js "null") _ = true |- _ =>
        pose proof (starts_with_skipn _ _ E) as Hk
    end.
    change (List.length (js "null")) with 4%nat in Hk.
    simpl in Hk |- *. lia.
  - intros s k v r H. simpl in H.
    pose proof (skip_ws_length s) as Hws.
    destruct (skip_ws s) as [|q r0]; [discriminate|]. simpl in Hws.
    split_if H; [|discriminate].
    destruct (json_string_body r0 []) as [[k0 r1]|] eqn:Es; [|discriminate].
    apply json_string_body_shorter in Es.
    pose proof (skip_ws_length r1) as Hws1.
    destruct (skip_ws r1) as [|colon r2]; [discriminate|]. simpl in Hws1.
    split_if H; [|discriminate].
    destruct (json_value f r2) as [[v0 r3]|] eqn:Ev; [|discriminate].
    apply IHv in Ev. injection H as _ _ <-. lia.
  - intros s acc v r H. simpl in H.
    pose proof (skip_ws_length s) as Hws.
    destruct (skip_ws s) as [|c r0]; [discriminate|]. simpl in Hws.
    split_if H.
    { injection H as _ <-. lia. }
    split_if H; [|discriminate].
    destruct (json_member f r0) as [[[k v0] r2]|] eqn:Em; [|discriminate].
    apply IHm in Em. apply IHms in H. lia.
  - intros s acc v r H. simpl in H.
    pose proof (skip_ws_length s) as Hws.
    destruct (skip_ws s) as [|c r0]; [discriminate|]. simpl in Hws.
    split_if H.
    { injection H as _ <-. lia. }
    split_if H; [|discriminate].
    destruct (json_value f r0) as [[v0 r2]|] eqn:Ev; [|discriminate].
    apply IHv in Ev. apply IHes in H. lia.
Qed.

Ltac same_test :=
  match goal with
  | |- (if ?b then _ else _) = (if ?b then _ else _) => destruct b
  end.

(** Fuel above the length of the text changes nothing. *)
Lemma json_fuel (f : nat) :
  forall g, (f <= g)%nat ->
  (forall s, (List.length s < f)%nat -> json_value f s = json_value g s) /\
  (forall s, (List.length s < f)%nat -> json_member f s = json_member g s) /\
  (forall s acc, (List.length s < f)%nat ->
     json_members f s acc = json_members g s acc) /\
  (forall s acc, (List.length s < f)%nat ->
     json_elements f s acc = json_elements g s acc).
Proof.
  induction f as [|f IH]; intros g Hg.
  { repeat split; intros; lia. }
  destruct g as [|g]; [lia|].
  destruct (IH g ltac:(lia)) as (IHv & IHm & IHms & IHes).
  destruct (json_consumes f) as (Cv & Cm & _ & _).
  split; [|split; [|split]].
  - intros s Hs. cbn -[starts_with skipn js].
    pose proof (skip_ws_length s) as Hws.
    destruct (skip_ws s) as [|c r0]; [reflexivity|]. simpl in Hws.
    same_test.
    { destruct (skip_ws r0) as [|c' r']; [reflexivity|].
      same_test; [reflexivity|].
      rewrite <- (IHm r0) by lia.
      destruct (json_member f r0) as [[[k v0] r2]|] eqn:Em; [|reflexivity].
      apply Cm in Em. apply IHms. lia. }
    same_test.
    { destruct (skip_ws r0) as [|c' r']; [reflexivity|].
      same_test; [reflexivity|].
      rewrite <- (IHv r0) by lia.
      destruct (json_value f r0) as [[v0 r2]|] eqn:Ev; [|reflexivity].
      apply Cv in Ev. apply IHes. lia. }
    reflexivity.
  - intros s Hs. cbn -[starts_with skipn js].
    pose proof (skip_ws_length s) as Hws.
    destruct (skip_ws s) as [|q r0]; [reflexivity|]. simpl in Hws.
    same_test; [|reflexivity].
    destruct (json_string_body r0 []) as [[k0 r1]|] eqn:Es; [|reflexivity].
    apply json_string_body_shorter in Es.
    pose proof (skip_ws_length r1) as Hws1.
    destruct (skip_ws r1) as [|colon r2]; [reflexivity|]. simpl in Hws1.
    same_test; [|reflexivity].
    rewrite <- (IHv r2) by lia. reflexivity.
  - intros s acc Hs. cbn -[starts_with skipn js].
    pose proof (skip_ws_length s) as Hws.
    destruct (skip_ws s) as [|c r0]; [reflexivity|]. simpl in Hws.
    same_test; [reflexivity|].
    same_test; [|reflexivity].
    rewrite <- (IHm r0) by lia.
    destruct (json_member f r0) as [[[k v0] r2]|] eqn:Em; [|reflexivity].
    apply Cm in Em. apply IHms. lia.
  - intros s acc Hs. cbn -[starts_with skipn js].
    pose proof (skip_ws_length s) as Hws.
    destruct (skip_ws s) as [|c r0]; [reflexivity|]. simpl in Hws.
    same_test; [reflexivity|].
    same_test; [|reflexivity].
    rewrite <- (IHv r0) by lia.
    destruct (json_value f r0) as [[v0 r2]|] eqn:Ev; [|reflexivity].
    apply Cv in Ev. apply IHes. lia.
Qed.

(** [JSON_parse] gives the parser all the fuel it can use: more would
    give the same result. *)
Lemma JSON_parse_fuel (text : jsstring) (fuel : nat) :
  (List.length text < fuel)%nat ->
  json_value fuel text = json_value (S (List.length text)) text.
Proof.
  intros H. symmetry.
  apply (json_fuel (S (List.length text)) fuel); lia.
Qed.

(** ** The runtime pieces on sample inputs *)

Example parseFloat_samples :
  parseFloat (js "550.5") = Finite (1101 # 2) /\
  parseFloat (js "  -12.5e1xyz") = Finite (-125) /\
  parseFloat (js ".5") = Finite (1 # 2) /\
  parseFloat (js "0.1") = Finite (3602879701896397 # 36028797018963968) /\
  parseFloat (js "9007199254740993") = Finite 9007199254740992 /\
  parseFloat (js "1e309") = Infinity false /\
  parseFloat (js "-Infinity") = Infinity true /\
  parseFloat (js "km") = NaN /\
  parseFloat (js "") = NaN.
Proof. repeat split; vm_compute; reflexivity. Qed.

Example string_samples :
  String_replace (js "km") (js "") (js " 400 km ") = js " 400  " /\
  String_replace (js "km") (js "") (js "1km5km") = js "15km" /\
  trim (js " 400  ") = js "400" /\
  trim (js "   ") = js "".
Proof. repeat split. Qed.

Example JSON_parse_samples :
  JSON_parse (json_text "{'a':[1,true,null],'a':'x'}")
    = Some (VObject [(js "a", VString (js "x"))]) /\
  JSON_parse (json_text " [1.5e1, {}, 'A'] ")
    = Some (VArray [VNumber (Finite 15); VObject []; VString (js "A")]) /\
  JSON_parse (js "17") = Some (VNumber (Finite 17)) /\
  JSON_parse (js "01") = None /\
  JSON_parse (js "{'norad':1}") = None /\
  JSON_parse (js "[1,]") = None /\
  JSON_parse (js "") = None.
Proof. repeat split; vm_compute; reflexivity. Qed.

Example toFixed_samples :
  toFixed (fun _ => []) 2 (Finite (1101 # 2)) = js "550.50" /\
  toFixed (fun _ => []) 2 (Finite (1 # 8)) = js "0.13" /\
  toFixed (fun _ => []) 6 (Finite (-3 # 2)) = js "-1.500000" /\
  toFixed (fun _ => []) 2 NaN = js "NaN".
Proof. repeat split; vm_compute; reflexivity. Qed.

(** ** Association lists *)

Section AListFacts.
Context {K V : Type}.
Variable eqb : K -> K -> bool.
Hypothesis eqb_eq : forall a b, eqb a b = true <-> a = b.

Lemma eqb_same (k : K) : eqb k k = true.
Proof. apply eqb_eq; reflexivity. Qed.

Lemma eqb_differ (a b : K) : a <> b -> eqb a b = false.
Proof.
  intros Hne. destruct (eqb a b) eqn:E; [|reflexivity].
  apply eqb_eq in E. contradiction.
Qed.

Lemma alist_get_set_same (k : K) (v : V) (l : list (K * V)) :
  alist_get eqb k (alist_set eqb k v l) = Some v.
Proof.
  induction l as [|[k' v'] l IH]; simpl.
  - rewrite eqb_same; reflexivity.
  - destruct (eqb k k') eqn:E; simpl.
    + rewrite eqb_same; reflexivity.
    + rewrite E; exact IH.
Qed.

Lemma alist_get_set_other (k k' : K) (v : V) (l : list (K * V)) :
  k <> k' ->
  alist_get eqb k' (alist_set eqb k v l) = alist_get eqb k' l.
Proof.
  intros Hne. induction l as [|[k0 v0] l IH]; simpl.
  - rewrite (eqb_differ k' k); auto.
  - destruct (eqb k k0) eqn:E; simpl.
    + apply eqb_eq in E; subst k0.
      rewrite (eqb_differ k' k); auto.
    + rewrite IH; reflexivity.
Qed.

Lemma alist_set_keys (k : K) (v : V) (l : list (K * V)) :
  forall k', In k' (map fst (alist_set eqb k v l)) <->
             k' = k \/ In k' (map fst l).
Proof.
  intros k'. induction l as [|[k0 v0] l IH]; simpl.
  - split; intros [H | []]; left; congruence.
  - destruct (eqb k k0) eqn:E; simpl.
    + apply eqb_eq in E; subst k0. intuition congruence.
    + rewrite IH. tauto.
Qed.

Lemma alist_set_NoDup (k : K) (v : V) (l : list (K * V)) :
  NoDup (map fst l) -> NoDup (map fst (alist_set eqb k v l)).
Proof.
  induction l as [|[k0 v0] l IH]; simpl; intros Hnd.
  - constructor; [intros [] | constructor].
  - inversion Hnd as [|? ? Hnotin Hnd']; subst.
    destruct (eqb k k0) eqn:E; simpl.
    + apply eqb_eq in E; subst k0. constructor; assumption.
    + constructor; [|apply IH; assumption].
      rewrite alist_set_keys. intros [Heq | Hin]; [|contradiction].
      subst k0. rewrite eqb_same in E. discriminate.
Qed.

Lemma alist_count_absent (k : K) (l : list (K * V)) :
  ~ In k (map fst l) -> alist_count eqb k l = 0%nat.
Proof.
  unfold alist_count. induction l as [|[k0 v0] l IH]; simpl; intros Hnotin.
  - reflexivity.
  - rewrite (eqb_differ k k0) by (intros ->; apply Hnotin; auto).
    apply IH. intros Hin; apply Hnotin; auto.
Qed.

(** In a list without duplicate keys, a key that is present has exactly
    one entry. *)
Lemma alist_count_NoDup (k : K) (l : list (K * V)) :
  NoDup (map fst l) -> In k (map fst l) -> alist_count eqb k l = 1%nat.
Proof.
  unfold alist_count. induction l as [|[k0 v0] l IH]; simpl; intros Hnd Hin.
  - contradiction.
  - inversion Hnd as [|? ? Hnotin Hnd']; subst.
    destruct (eqb k k0) eqn:E; simpl.
    + apply eqb_eq in E; subst k0.
      f_equal. apply (alist_count_absent k l Hnotin).
    + destruct Hin as [Heq | Hin].
      * subst k0. rewrite eqb_same in E. discriminate.
      * apply IH; assumption.
Qed.

Lemma alist_get_In (k : K) (v : V) (l : list (K * V)) :
  alist_get eqb k l = Some v -> In (k, v) l.
Proof.
  induction l as [|[k0 v0] l IH]; simpl; [discriminate|].
  destruct (eqb k k0) eqn:E.
  - apply eqb_eq in E; subst k0. intros H; inversion H; auto.
  - auto.
Qed.

End AListFacts.

(** ** Running the handlers symbolically *)

Ltac js_unfold :=
  cbv beta iota zeta delta
    [step exec deliver ws_onopen ws_onmessage ws_onerror ws_onclose
     timer_body cleanup connect new_WebSocket WebSocket_close
     setTimeout clearTimeout expire console_line Map_key
     JSON_parse_or_throw isConnectionMessage isSatellitePosition in_operator
     setSatellites setConnected setConnectionStatus setMessageCount
     setLastMessageTime assign_ws assign_reconnectTimeout assign_isMounted
     set_ui set_vars set_host try_catch bind ret throw read modify
     ui vars host satellites connected connectionStatus messageCount
     lastMessageTime ws reconnectTimeout isMounted timers next_timer
     sockets closed objects console fst snd negb].

Ltac break_match :=
  match goal with
  | |- context [match ?x with _ => _ end] =>
      lazymatch x with
      | context [match _ with _ => _ end] => fail
      | _ => destruct x eqn:?
      end
  end.

Ltac js_run := js_unfold; repeat (break_match; js_unfold).

Ltac destruct_state st :=
  destruct st as [[sats conn status count last] [sock handle mounted]
                    [pending next nsock closed_socks nobj lines]].

(** ** The message handler leaves the connection manager alone *)

Lemma ws_onmessage_returns (data : jsstring) (now now' : Z) (st : State) :
  fst (ws_onmessage data now now' st) = Return tt.
Proof.
  destruct_state st. js_run; reflexivity.
Qed.

Lemma ws_onmessage_frame (data : jsstring) (now now' : Z) (st : State) :
  let st' := exec (ws_onmessage data now now') st in
  vars st' = vars st /\
  timers (host st') = timers (host st) /\
  next_timer (host st') = next_timer (host st) /\
  sockets (host st') = sockets (host st) /\
  closed (host st') = closed (host st) /\
  connected (ui st') = connected (ui st).
Proof.
  destruct_state st. js_run; repeat split; reflexivity.
Qed.

(** ** Reachable states *)

Lemma run_snoc (st : State) (events : list Event) (e : Event) :
  run st (events ++ [e]) = step (run st events) e.
Proof. unfold run. rewrite fold_left_app. reflexivity. Qed.

Lemma reachable_mount (refused : bool) : reachable (mount refused).
Proof. exists refused, []. reflexivity. Qed.

Lemma reachable_step (st : State) (e : Event) :
  reachable st -> reachable (step st e).
Proof.
  intros (refused & events & ->).
  exists refused, (events ++ [e]). symmetry. apply run_snoc.
Qed.

Lemma reachable_run (st : State) (events : list Event) :
  reachable st -> reachable (run st events).
Proof.
  revert st. induction events as [|e events IH]; intros st Hr; simpl.
  - exact Hr.
  - apply IH, reachable_step, Hr.
Qed.

(** Induction over the events that lead to a state. *)
Lemma reachable_ind (P : State -> Prop) :
  (forall refused, P (mount refused)) ->
  (forall st e, reachable st -> P st -> P (step st e)) ->
  forall st, reachable st -> P st.
Proof.
  intros Hmount Hstep st (refused & events & ->).
  induction events as [|e events IH] using rev_ind.
  - apply Hmount.
  - rewrite run_snoc. apply Hstep; [|exact IH].
    exists refused, events. reflexivity.
Qed.

(** ** The pending timer *)

Lemma mount_timers_tracked (refused : bool) : timers_tracked (mount refused).
Proof.
  destruct refused; [right | left]; [|reflexivity].
  eexists; repeat split.
Qed.

Lemma step_timers_tracked (st : State) (e : Event) :
  timers_tracked st -> timers_tracked (step st e).
Proof.
  intros Hinv. destruct e as [s|s data now now'|s|s code reason|id refused|].
  - (* open *)
    destruct_state st. unfold timers_tracked in *. simpl in Hinv.
    destruct Hinv as [-> | (t & -> & -> & Hd)]; js_run; simpl;
      rewrite ?Pos.eqb_refl; simpl; auto.
    all: try (right; eexists; repeat split; eassumption).
  - (* message *)
    unfold timers_tracked in *.
    unfold step, deliver, bind, read, ret, exec. simpl.
    destruct (s <? sockets (host st))%nat; [|exact Hinv].
    destruct (ws_onmessage_frame data now now' st) as (Hv & Ht & _).
    unfold exec in Hv, Ht. rewrite Hv, Ht. exact Hinv.
  - (* error *)
    destruct_state st. unfold timers_tracked in *. simpl in Hinv.
    js_run; simpl; exact Hinv.
  - (* close *)
    destruct_state st. unfold timers_tracked in *. simpl in Hinv.
    destruct Hinv as [-> | (t & -> & -> & Hd)]; js_run; simpl; auto.
    all: try (right; eexists; repeat split; eassumption).
    all: try (right; eexists; repeat split; reflexivity).
  - (* a timer fires *)
    destruct_state st. unfold timers_tracked in *. simpl in Hinv.
    destruct Hinv as [-> | (t & -> & Hh & Hd)].
    + unfold step, deliver, bind, read, ret, exec. simpl. left; reflexivity.
    + simpl in Hh. subst handle.
      unfold step, deliver, bind, read, exec. simpl.
      unfold find_timer. simpl.
      destruct (Pos.eqb (timer_id t) id) eqn:E.
      * js_unfold. simpl. unfold remove_timer. simpl. rewrite E. simpl.
        destruct (timer_callback t), mounted, refused; js_run; simpl; auto.
        all: right; eexists; repeat split; reflexivity.
      * js_unfold. simpl. right. eexists; repeat split; eassumption.
  - (* unmount *)
    destruct_state st. unfold timers_tracked in *. simpl in Hinv.
    destruct Hinv as [-> | (t & -> & Hh & Hd)].
    + js_run; simpl; auto.
    + simpl in Hh. subst handle. js_run; simpl; unfold remove_timer; simpl;
        rewrite Pos.eqb_refl; simpl; auto.
Qed.

Lemma reachable_timers_tracked (st : State) :
  reachable st -> timers_tracked st.
Proof.
  revert st. apply reachable_ind.
  - apply mount_timers_tracked.
  - intros st e _. apply step_timers_tracked.
Qed.

(** ** After the cleanup *)

Lemma unmounted_step (st : State) (e : Event) :
  isMounted (vars st) = false ->
  ui (step st e) = ui st /\
  isMounted (vars (step st e)) = false /\
  (timers (host st) = [] -> timers (host (step st e)) = []).
Proof.
  destruct_state st. simpl. intros ->.
  destruct e as [s|s data now now'|s|s code reason|id refused|];
    unfold find_timer; js_run; simpl; repeat split; auto;
    intros ->; try reflexivity; simpl in *; discriminate.
Qed.

Lemma unmounted_run (st : State) (events : list Event) :
  isMounted (vars st) = false ->
  ui (run st events) = ui st /\
  isMounted (vars (run st events)) = false /\
  (timers (host st) = [] -> timers (host (run st events)) = []).
Proof.
  revert st. induction events as [|e events IH]; intros st Hm; simpl.
  - auto.
  - destruct (unmounted_step st e Hm) as (Hu & Hm' & Ht).
    destruct (IH (step st e) Hm') as (Hu' & Hm'' & Ht').
    repeat split; [congruence | assumption | auto].
Qed.

Lemma cleanup_effect (st : State) :
  timers_tracked st ->
  let down := step st Unmount in
  ui down = ui st /\
  isMounted (vars down) = false /\
  timers (host down) = [] /\
  (forall s, ws (vars st) = Some s -> In s (closed (host down))).
Proof.
  destruct_state st. unfold timers_tracked. simpl.
  intros [-> | (t & -> & -> & _)]; js_run; simpl; unfold remove_timer; simpl;
    rewrite ?Pos.eqb_refl; simpl; repeat split; auto;
    intros s Hs; inversion Hs; subst; apply in_or_app; right; left;
    reflexivity.
Qed.

(** C8.  Once the component is torn down, no event that is still
    delivered (open, message, error, close, a timer firing) changes the
    store, the counter, the last-message time, the status text or the
    connected flag: every handler and timer callback of a torn-down
    component leaves them alone.  The teardown itself leaves no timer
    pending, none appears afterwards, and it calls [close()] on the
    socket the component holds. *)
Theorem teardown_stops_all_updates (st : State) (events : list Event) :
  reachable st ->
  let down := step st Unmount in
  (forall s e, isMounted (vars s) = false -> ui (step s e) = ui s) /\
  ui down = ui st /\
  ui (run down events) = ui down /\
  isMounted (vars (run down events)) = false /\
  timers (host down) = [] /\
  timers (host (run down events)) = [] /\
  (forall s, ws (vars st) = Some s -> In s (closed (host down))).
Proof.
  intros Hr down.
  destruct (cleanup_effect st (reachable_timers_tracked st Hr))
    as (Hu & Hm & Ht & Hc).
  fold down in Hu, Hm, Ht, Hc.
  destruct (unmounted_run down events Hm) as (Hu' & Hm' & Ht').
  split; [intros s e Hs; apply (unmounted_step s e Hs)|].
  repeat split; auto.
Qed.

(** ** The message handler *)

(** C6.  A payload [JSON.parse] rejects is counted and dropped: the
    handler returns normally, the message count goes up by one, the
    store, the status text and the connected flag stay as they were, so
    do the closure variables and the pending timers, and the console gets
    the error and the raw payload. *)
Theorem decode_failure_only_counts
  (st : State) (data : jsstring) (now now' : Z) :
  isMounted (vars st) = true ->
  JSON_parse data = None ->
  let st' := exec (ws_onmessage data now now') st in
  fst (ws_onmessage data now now' st) = Return tt /\
  messageCount (ui st') = messageCount (ui st) + 1 /\
  satellites (ui st') = satellites (ui st) /\
  connectionStatus (ui st') = connectionStatus (ui st) /\
  connected (ui st') = connected (ui st) /\
  vars st' = vars st /\
  timers (host st') = timers (host st) /\
  exists earlier,
    console (host st') =
    earlier ++ [ErrorParsing SyntaxError; ErrorRawMessage data].
Proof.
  destruct_state st. simpl. intros -> Hparse.
  js_unfold. rewrite Hparse.
  destruct (count + 1 <=? 3)%Z; js_unfold; simpl; repeat split;
    eexists; rewrite <- app_assoc; reflexivity.
Qed.

(** C9.  A message whose [type] is ['connection'] sets the status text
    to its [message] field and changes neither the store nor the
    connected flag. *)
Theorem connection_message_sets_status_text_only
  (st : State) (data : jsstring) (now now' : Z)
  (members : list (jsstring * Value)) :
  isMounted (vars st) = true ->
  JSON_parse data = Some (VObject members) ->
  alist_get jsstring_eqb (js "type") members
    = Some (VString (js "connection")) ->
  let st' := exec (ws_onmessage data now now') st in
  connectionStatus (ui st') = get_property (js "message") (VObject members) /\
  satellites (ui st') = satellites (ui st) /\
  connected (ui st') = connected (ui st).
Proof.
  destruct_state st. simpl. intros -> Hparse Htype.
  js_unfold. rewrite Hparse.
  unfold has_property, alist_has, get_property. rewrite Htype.
  destruct (count + 1 <=? 3)%Z; js_unfold; simpl; repeat split.
Qed.


(** What the handler does with a decoded message, branch by branch. *)
Lemma onmessage_connection
  (st : State) (data : jsstring) (now now' : Z) (msg : Value) :
  isMounted (vars st) = true ->
  JSON_parse data = Some msg ->
  fst (isConnectionMessage msg st) = Return true ->
  let st' := exec (ws_onmessage data now now') st in
  connectionStatus (ui st') = get_property (js "message") msg /\
  satellites (ui st') = satellites (ui st) /\
  connected (ui st') = connected (ui st).
Proof.
  destruct_state st. cbn [vars isMounted]. intros -> Hparse.
  js_unfold.
  destruct (has_property (js "type") msg) as [[|]|] eqn:Htype; js_unfold;
    cbn [andb]; try discriminate.
  intros Hc. injection Hc as Hc.
  destruct (count + 1 <=? 3)%Z eqn:Hcount; rewrite Hparse; js_unfold;
    rewrite Htype; js_unfold; cbn [andb]; rewrite Hc; js_unfold;
    repeat split.
Qed.

Lemma onmessage_position
  (st : State) (data : jsstring) (now now' : Z) (msg : Value) :
  isMounted (vars st) = true ->
  JSON_parse data = Some msg ->
  fst (isConnectionMessage msg st) = Return false ->
  fst (isSatellitePosition msg st) = Return true ->
  let st' := exec (ws_onmessage data now now') st in
  exists key,
    fst (Map_key (get_property (js "norad") msg) st) = Return key /\
    satellites (ui st') =
      Map_set key
        {| name := get_property (js "name") msg;
           norad := get_property (js "norad") msg;
           lat := get_property (js "lat") msg;
           lon := get_property (js "lon") msg;
           alt := altValue (get_property (js "alt") msg);
           timestamp := now' |}
        (satellites (ui st)) /\
    connectionStatus (ui st') = connectionStatus (ui st) /\
    connected (ui st') = connected (ui st).
Proof.
  destruct_state st. cbn [vars isMounted]. intros -> Hparse.
  js_unfold.
  destruct (has_property (js "type") msg) as [[|]|] eqn:Htype; js_unfold;
    cbn [andb]; try discriminate.
  - intros Hc. injection Hc as Hc.
    destruct (has_property (js "norad") msg) as [[|]|] eqn:Hnorad;
      js_unfold; try discriminate. intros _.
    destruct (count + 1 <=? 3)%Z eqn:Hcount; rewrite Hparse; js_unfold;
      rewrite Htype; js_unfold; cbn [andb]; rewrite Hc; js_unfold;
      rewrite Hnorad; js_unfold;
      destruct (get_property (js "norad") msg); js_unfold;
      eexists; repeat split.
  - intros _.
    destruct (has_property (js "norad") msg) as [[|]|] eqn:Hnorad;
      js_unfold; try discriminate. intros _.
    destruct (count + 1 <=? 3)%Z eqn:Hcount; rewrite Hparse; js_unfold;
      rewrite Htype; js_unfold; cbn [andb]; js_unfold;
      rewrite Hnorad; js_unfold;
      destruct (get_property (js "norad") msg); js_unfold;
      eexists; repeat split.
Qed.

Lemma onmessage_unknown
  (st : State) (data : jsstring) (now now' : Z) (msg : Value) :
  isMounted (vars st) = true ->
  JSON_parse data = Some msg ->
  fst (isConnectionMessage msg st) = Return false ->
  fst (isSatellitePosition msg st) = Return false ->
  let st' := exec (ws_onmessage data now now') st in
  satellites (ui st') = satellites (ui st) /\
  connectionStatus (ui st') = connectionStatus (ui st) /\
  connected (ui st') = connected (ui st) /\
  exists earlier, console (host st') = earlier ++ [WarnUnknownFormat msg].
Proof.
  destruct_state st. cbn [vars isMounted]. intros -> Hparse.
  js_unfold.
  destruct (has_property (js "type") msg) as [[|]|] eqn:Htype; js_unfold;
    cbn [andb]; try discriminate.
  - intros Hc. injection Hc as Hc.
    destruct (has_property (js "norad") msg) as [[|]|] eqn:Hnorad;
      js_unfold; try discriminate. intros _.
    destruct (count + 1 <=? 3)%Z eqn:Hcount; rewrite Hparse; js_unfold;
      rewrite Htype; js_unfold; cbn [andb]; rewrite Hc; js_unfold;
      rewrite Hnorad; js_unfold; repeat split; eexists; reflexivity.
  - intros _.
    destruct (has_property (js "norad") msg) as [[|]|] eqn:Hnorad;
      js_unfold; try discriminate. intros _.
    destruct (count + 1 <=? 3)%Z eqn:Hcount; rewrite Hparse; js_unfold;
      rewrite Htype; js_unfold; cbn [andb]; js_unfold;
      rewrite Hnorad; js_unfold; repeat split; eexists; reflexivity.
Qed.

Lemma onmessage_not_an_object
  (st : State) (data : jsstring) (now now' : Z) (msg : Value)
  (e : Exception) :
  isMounted (vars st) = true ->
  JSON_parse data = Some msg ->
  fst (isConnectionMessage msg st) = Throw e ->
  let st' := exec (ws_onmessage data now now') st in
  e = TypeError /\
  satellites (ui st') = satellites (ui st) /\
  connectionStatus (ui st') = connectionStatus (ui st) /\
  connected (ui st') = connected (ui st) /\
  exists earlier,
    console (host st') =
    earlier ++ [ErrorParsing TypeError; ErrorRawMessage data].
Proof.
  destruct_state st. cbn [vars isMounted]. intros -> Hparse.
  js_unfold.
  destruct (has_property (js "type") msg) as [[|]|] eqn:Htype; js_unfold;
    cbn [andb]; try discriminate.
  intros He. injection He as <-.
  destruct (count + 1 <=? 3)%Z eqn:Hcount; rewrite Hparse; js_unfold;
    rewrite Htype; js_unfold; repeat split; eexists;
    rewrite <- app_assoc; reflexivity.
Qed.

(** C4, as the code has it.  The kind of a decoded message is decided by
    its shape, the [type] test first: a message whose [type] is
    ['connection'] is a status update (whether or not it has a [norad]);
    any other message with a [norad] is a position update, filed in the
    store under that [norad]; an object or array with neither is logged
    as unknown and dropped; a value that is no object makes the [in]
    test throw, which the handler catches, logs and drops. *)
Theorem message_kind_by_shape
  (st : State) (data : jsstring) (now now' : Z) (msg : Value) :
  isMounted (vars st) = true ->
  JSON_parse data = Some msg ->
  let st' := exec (ws_onmessage data now now') st in
  (fst (isConnectionMessage msg st) = Return true ->
     connectionStatus (ui st') = get_property (js "message") msg /\
     satellites (ui st') = satellites (ui st) /\
     connected (ui st') = connected (ui st)) /\
  (fst (isConnectionMessage msg st) = Return false ->
   fst (isSatellitePosition msg st) = Return true ->
     exists key,
       fst (Map_key (get_property (js "norad") msg) st) = Return key /\
       satellites (ui st') =
         Map_set key
           {| name := get_property (js "name") msg;
              norad := get_property (js "norad") msg;
              lat := get_property (js "lat") msg;
              lon := get_property (js "lon") msg;
              alt := altValue (get_property (js "alt") msg);
              timestamp := now' |}
           (satellites (ui st)) /\
       connectionStatus (ui st') = connectionStatus (ui st) /\
       connected (ui st') = connected (ui st)) /\
  (fst (isConnectionMessage msg st) = Return false ->
   fst (isSatellitePosition msg st) = Return false ->
     satellites (ui st') = satellites (ui st) /\
     connectionStatus (ui st') = connectionStatus (ui st) /\
     connected (ui st') = connected (ui st) /\
     exists earlier,
       console (host st') = earlier ++ [WarnUnknownFormat msg]) /\
  (forall e, fst (isConnectionMessage msg st) = Throw e ->
     satellites (ui st') = satellites (ui st) /\
     connectionStatus (ui st') = connectionStatus (ui st) /\
     connected (ui st') = connected (ui st) /\
     exists earlier,
       console (host st') =
       earlier ++ [ErrorParsing TypeError; ErrorRawMessage data]).
Proof.
  intros Hm Hp st'. split; [|split; [|split]].
  - intros Hc. exact (onmessage_connection st data now now' msg Hm Hp Hc).
  - intros Hc Hn.
    exact (onmessage_position st data now now' msg Hm Hp Hc Hn).
  - intros Hc Hn.
    exact (onmessage_unknown st data now now' msg Hm Hp Hc Hn).
  - intros e He.
    exact (proj2 (onmessage_not_an_object st data now now' msg e Hm Hp He)).
Qed.

(** C4 as stated fails: this message has a [norad], and it is handled as
    a status update; no record is stored. *)
Lemma connection_typed_message_with_norad_is_status :
  let data := connection_with_norad in
  let st := step (mount false) (SocketOpen 0) in
  let st' := exec (ws_onmessage data 1 2) st in
  isMounted (vars st) = true /\
  (exists msg, JSON_parse data = Some msg /\
               fst (isSatellitePosition msg st) = Return true) /\
  satellites (ui st') = [] /\
  connectionStatus (ui st') = VString (js "hello").
Proof.
  cbv zeta. split; [reflexivity|]. split.
  - eexists. split; [vm_compute; reflexivity | vm_compute; reflexivity].
  - split; vm_compute; reflexivity.
Qed.

Lemma message_kind_by_shape_witness :
  let data := iss_at_408km in
  let st := step (mount false) (SocketOpen 0) in
  isMounted (vars st) = true /\
  (exists msg, JSON_parse data = Some msg) /\
  satellites (ui (exec (ws_onmessage data 1 2) st)) =
    [(KNumber (Finite 25544),
      {| name := VString (js "ISS"); norad := VNumber (Finite 25544);
         lat := VNumber (Finite (3 # 2)); lon := VNumber (Finite 2);
         alt := VNumber (Finite 408); timestamp := 2 |})].
Proof.
  cbv zeta.
  pose (msg := VObject
    [(js "name", VString (js "ISS")); (js "norad", VNumber (Finite 25544));
     (js "lat", VNumber (Finite (3 # 2))); (js "lon", VNumber (Finite 2));
     (js "alt", VString (js "408km"))]).
  assert (Hm : isMounted (vars (step (mount false) (SocketOpen 0))) = true)
    by reflexivity.
  assert (Hp : JSON_parse iss_at_408km = Some msg)
    by (vm_compute; reflexivity).
  split; [exact Hm|]. split; [exists msg; exact Hp|].
  destruct (message_kind_by_shape _ _ 1 2 msg Hm Hp) as (_ & Hpos & _).
  destruct (Hpos eq_refl eq_refl) as (key & Hk & Hs & _).
  rewrite Hs. vm_compute in Hk. injection Hk as <-.
  vm_compute. reflexivity.
Defined.

(** ** Strings *)

Lemma occurs_cons (pat : jsstring) (c : N) (s : jsstring) :
  occurs pat (c :: s) = false ->
  starts_with pat (c :: s) = false /\ occurs pat s = false.
Proof. simpl. intros H. apply orb_false_iff in H. exact H. Qed.

Lemma occurs_nil_start (pat s : jsstring) :
  occurs pat s = false -> starts_with pat s = false.
Proof.
  destruct s; simpl; intros H; apply orb_false_iff in H; tauto.
Qed.

(** [replace] leaves a string without the pattern as it is. *)
Lemma String_replace_absent (pat rep s : jsstring) :
  occurs pat s = false -> String_replace pat rep s = s.
Proof.
  induction s as [|c s IH]; intros H.
  - apply occurs_nil_start in H. simpl. rewrite H. reflexivity.
  - destruct (occurs_cons _ _ _ H) as (Hs & Ho).
    simpl String_replace. simpl in Hs. rewrite Hs. f_equal. apply IH, Ho.
Qed.

(** [replace] takes out the first ['km']: the one no other precedes. *)
Lemma String_replace_first_km (pre post : jsstring) :
  occurs (js "km") pre = false ->
  String_replace (js "km") [] (pre ++ js "km" ++ post) = pre ++ post.
Proof.
  induction pre as [|c pre IH]; intros H.
  - reflexivity.
  - destruct (occurs_cons _ _ _ H) as (Hs & Ho).
    assert (Hs' : starts_with (js "km") ((c :: pre) ++ js "km" ++ post)
                  = false).
    { destruct pre as [|d pre].
      - cbn -[N.eqb]. apply andb_false_r.
      - cbn -[N.eqb] in Hs |- *. exact Hs. }
    change (String_replace (js "km") [] ((c :: pre) ++ js "km" ++ post))
      with (if starts_with (js "km") ((c :: pre) ++ js "km" ++ post)
            then [] ++ skipn (List.length (js "km"))
                         ((c :: pre) ++ js "km" ++ post)
            else c :: String_replace (js "km") [] (pre ++ js "km" ++ post)).
    rewrite Hs'. rewrite (IH Ho). reflexivity.
Qed.

Lemma all_whitespace_app (a b : jsstring) :
  all_whitespace (a ++ b) = all_whitespace a && all_whitespace b.
Proof. apply forallb_app. Qed.

Lemma all_whitespace_rev (a : jsstring) :
  all_whitespace (rev a) = all_whitespace a.
Proof.
  induction a as [|c a IH]; [reflexivity|].
  simpl rev. rewrite all_whitespace_app, IH. simpl.
  rewrite andb_true_r. apply andb_comm.
Qed.

Lemma trimStart_whitespace (w s : jsstring) :
  all_whitespace w = true -> trimStart (w ++ s) = trimStart s.
Proof.
  induction w as [|c w IH]; simpl; intros H; [reflexivity|].
  apply andb_true_iff in H. destruct H as (Hc & Hw).
  rewrite Hc. apply IH, Hw.
Qed.

Lemma trimStart_all_whitespace (w : jsstring) :
  all_whitespace w = true -> trimStart w = [].
Proof.
  intros H. rewrite <- (app_nil_r w). rewrite trimStart_whitespace; auto.
Qed.

(** Text that follows a visible character survives [trimStart]. *)
Lemma trimStart_app_visible (a : jsstring) (c : N) (b : jsstring) :
  is_whitespace c = false ->
  trimStart (a ++ c :: b) = trimStart a ++ c :: b.
Proof.
  intros Hc. induction a as [|x a IH]; simpl.
  - rewrite Hc. reflexivity.
  - destruct (is_whitespace x); [exact IH | reflexivity].
Qed.

Lemma trimStart_app_whitespace (s w : jsstring) :
  all_whitespace w = true ->
  exists w', all_whitespace w' = true /\
             trimStart (s ++ w) = trimStart s ++ w'.
Proof.
  intros Hw. induction s as [|x s IH]; simpl.
  - exists []. split; [reflexivity|]. apply trimStart_all_whitespace, Hw.
  - destruct (is_whitespace x); [exact IH|].
    exists w. split; [exact Hw | reflexivity].
Qed.

Lemma trimStart_idempotent (s : jsstring) :
  trimStart (trimStart s) = trimStart s.
Proof.
  induction s as [|x s IH]; simpl; [reflexivity|].
  destruct (is_whitespace x) eqn:E; [exact IH|].
  simpl. rewrite E. reflexivity.
Qed.

Lemma trimEnd_whitespace (s w : jsstring) :
  all_whitespace w = true -> trimEnd (s ++ w) = trimEnd s.
Proof.
  intros H. unfold trimEnd. rewrite rev_app_distr.
  rewrite trimStart_whitespace; [reflexivity|].
  rewrite all_whitespace_rev. exact H.
Qed.

Lemma trimEnd_visible (s : jsstring) (c : N) :
  is_whitespace c = false -> trimEnd (s ++ [c]) = s ++ [c].
Proof.
  intros Hc. unfold trimEnd. rewrite rev_app_distr. simpl.
  rewrite Hc. simpl. rewrite rev_involutive. reflexivity.
Qed.

(** Trailing whitespace does not change what [trim] gives. *)
Lemma trim_app_whitespace (s w : jsstring) :
  all_whitespace w = true -> trim (s ++ w) = trim s.
Proof.
  intros Hw. unfold trim.
  destruct (trimStart_app_whitespace s w Hw) as (w' & Hw' & ->).
  apply trimEnd_whitespace, Hw'.
Qed.

Lemma trim_km_suffix (pre post : jsstring) :
  all_whitespace post = true ->
  trim (pre ++ js "km" ++ post) = trimStart pre ++ js "km".
Proof.
  intros Hw. unfold trim.
  change (js "km" ++ post) with (107%N :: ([109%N] ++ post)).
  rewrite trimStart_app_visible by reflexivity.
  change (trimStart pre ++ 107%N :: [109%N] ++ post)
    with (trimStart pre ++ [107%N] ++ [109%N] ++ post).
  rewrite !app_assoc. rewrite trimEnd_whitespace by exact Hw.
  rewrite trimEnd_visible by reflexivity.
  rewrite <- app_assoc. reflexivity.
Qed.

Lemma strip_unit_suffix_km (x : jsstring) :
  strip_unit_suffix (x ++ js "km") = x.
Proof.
  unfold strip_unit_suffix, ends_with.
  rewrite rev_app_distr. simpl.
  rewrite length_app. simpl.
  replace (List.length x + 2 - 2)%nat with (List.length x + 0)%nat by lia.
  rewrite firstn_app_2. simpl. apply app_nil_r.
Qed.

Lemma trim_trimStart (s : jsstring) : trim (trimStart s) = trim s.
Proof. unfold trim. rewrite trimStart_idempotent. reflexivity. Qed.

Lemma starts_with_split (p s : jsstring) :
  starts_with p s = true -> exists r, s = p ++ r.
Proof.
  revert s. induction p as [|x p IH]; intros s H.
  - exists s. reflexivity.
  - destruct s as [|y s]; [discriminate|]. simpl in H.
    apply andb_true_iff in H. destruct H as (Hxy & Hp).
    apply N.eqb_eq in Hxy. subst y.
    destruct (IH s Hp) as (r & ->). exists r. reflexivity.
Qed.

Lemma starts_with_app (p r : jsstring) : starts_with p (p ++ r) = true.
Proof.
  induction p as [|x p IH]; simpl; [reflexivity|].
  rewrite N.eqb_refl. exact IH.
Qed.

Lemma occurs_app_r (pat a b : jsstring) :
  occurs pat b = true -> occurs pat (a ++ b) = true.
Proof.
  intros H. induction a as [|x a IH]; [exact H|].
  simpl. rewrite IH. apply orb_true_r.
Qed.

Lemma occurs_suffix (pat x : jsstring) : occurs pat (x ++ pat) = true.
Proof.
  apply occurs_app_r. rewrite <- (app_nil_r pat) at 2.
  destruct pat; simpl; [reflexivity|].
  rewrite N.eqb_refl, starts_with_app. reflexivity.
Qed.

Lemma starts_with_app_l (p a b : jsstring) :
  starts_with p a = true -> starts_with p (a ++ b) = true.
Proof.
  intros H. destruct (starts_with_split p a H) as (r & ->).
  rewrite <- app_assoc. apply starts_with_app.
Qed.

Lemma occurs_app_l (pat a b : jsstring) :
  occurs pat a = true -> occurs pat (a ++ b) = true.
Proof.
  induction a as [|x a IH]; intros H.
  - simpl in H. rewrite orb_false_r in H.
    destruct pat; [|discriminate]. destruct b; reflexivity.
  - simpl in H. apply orb_true_iff in H. destruct H as [H | H].
    + change ((x :: a) ++ b) with (x :: (a ++ b)).
      change (occurs pat (x :: a ++ b))
        with (starts_with pat ((x :: a) ++ b) || occurs pat (a ++ b)).
      rewrite (starts_with_app_l _ _ b H). reflexivity.
    + change (occurs pat ((x :: a) ++ b))
        with (starts_with pat ((x :: a) ++ b) || occurs pat (a ++ b)).
      rewrite (IH H). apply orb_true_r.
Qed.

Lemma ends_with_occurs (pat t : jsstring) :
  ends_with pat t = true -> occurs pat t = true.
Proof.
  unfold ends_with. intros H.
  destruct (starts_with_split _ _ H) as (r & Hr).
  apply (f_equal (@rev N)) in Hr.
  rewrite rev_involutive, rev_app_distr, rev_involutive in Hr. subst t.
  apply occurs_suffix.
Qed.

Lemma trimStart_is_suffix (s : jsstring) : exists w, s = w ++ trimStart s.
Proof.
  induction s as [|x s (w & IH)]; simpl.
  - exists []. reflexivity.
  - destruct (is_whitespace x).
    + exists (x :: w). simpl. f_equal. exact IH.
    + exists []. reflexivity.
Qed.

Lemma trimEnd_is_prefix (s : jsstring) : exists w, s = trimEnd s ++ w.
Proof.
  unfold trimEnd. destruct (trimStart_is_suffix (rev s)) as (w & Hw).
  exists (rev w). rewrite <- rev_app_distr, <- Hw, rev_involutive.
  reflexivity.
Qed.

(** What occurs in the trimmed text occurs in the text. *)
Lemma occurs_trim (pat s : jsstring) :
  occurs pat (trim s) = true -> occurs pat s = true.
Proof.
  unfold trim. intros H.
  destruct (trimStart_is_suffix s) as (w1 & Hs).
  destruct (trimEnd_is_prefix (trimStart s)) as (w2 & Ht).
  rewrite Hs. apply occurs_app_r. rewrite Ht. apply occurs_app_l, H.
Qed.

Lemma trimStart_head (s : jsstring) :
  trimStart s = [] \/
  exists c r, trimStart s = c :: r /\ is_whitespace c = false.
Proof.
  induction s as [|x s IH]; simpl; [left; reflexivity|].
  destruct (is_whitespace x) eqn:E; [exact IH|].
  right. exists x, s. split; [reflexivity | exact E].
Qed.

Lemma trim_idempotent (s : jsstring) : trim (trim s) = trim s.
Proof.
  unfold trim.
  assert (Hfix : trimStart (trimEnd (trimStart s)) = trimEnd (trimStart s)).
  { destruct (trimStart_head s) as [-> | (c & r & -> & Hc)]; [reflexivity|].
    unfold trimEnd. simpl rev.
    rewrite trimStart_app_visible by exact Hc.
    rewrite rev_app_distr. simpl. rewrite Hc. reflexivity. }
  rewrite Hfix. unfold trimEnd at 1 2.
  rewrite rev_involutive, trimStart_idempotent. reflexivity.
Qed.

Lemma strip_unit_suffix_absent (s : jsstring) :
  occurs (js "km") s = false -> strip_unit_suffix s = s.
Proof.
  intros H. unfold strip_unit_suffix.
  destruct (ends_with (js "km") s) eqn:E; [|reflexivity].
  apply ends_with_occurs in E. congruence.
Qed.

Lemma occurs_trim_absent (pat s : jsstring) :
  occurs pat s = false -> occurs pat (trim s) = false.
Proof.
  intros H. destruct (occurs pat (trim s)) eqn:E; [|reflexivity].
  apply occurs_trim in E. congruence.
Qed.

(** C5, as the code has it.  A numeric altitude is used as it is.  A
    textual one has its first ['km'] taken out, wherever it stands, then
    the surrounding whitespace, and is parsed as a floating-point number.
    That is the specified stripping of a trailing unit suffix whenever no
    ['km'] comes before the trailing one (or the text has none at all).
    The three sample inputs give 550.5, 550.5 and 400. *)
Theorem altitude_normalization :
  (forall n, altValue (VNumber n) = VNumber n) /\
  (forall pre post,
     occurs (js "km") pre = false ->
     altValue (VString (pre ++ js "km" ++ post))
       = VNumber (parseFloat (trim (pre ++ post)))) /\
  (forall pre post,
     occurs (js "km") pre = false ->
     all_whitespace post = true ->
     altValue (VString (pre ++ js "km" ++ post))
       = VNumber (altitude_as_specified (pre ++ js "km" ++ post))) /\
  (forall text,
     occurs (js "km") text = false ->
     altValue (VString text) = VNumber (altitude_as_specified text)) /\
  altValue (VString (js "550.5km")) = VNumber (Finite (1101 # 2)) /\
  altValue (VNumber (Finite (1101 # 2))) = VNumber (Finite (1101 # 2)) /\
  altValue (VString (js " 400 km ")) = VNumber (Finite 400).
Proof.
  split; [reflexivity|]. split; [|split; [|split]].
  - intros pre post Hpre. unfold altValue.
    change (js "") with (@nil N).
    rewrite String_replace_first_km by exact Hpre. reflexivity.
  - intros pre post Hpre Hpost. unfold altValue, altitude_as_specified.
    change (js "") with (@nil N).
    rewrite String_replace_first_km by exact Hpre.
    rewrite trim_app_whitespace by exact Hpost.
    rewrite trim_km_suffix by exact Hpost.
    rewrite strip_unit_suffix_km, trim_trimStart. reflexivity.
  - intros text Habsent. unfold altValue, altitude_as_specified.
    rewrite String_replace_absent by exact Habsent.
    rewrite strip_unit_suffix_absent by (apply occurs_trim_absent, Habsent).
    rewrite trim_idempotent. reflexivity.
  - repeat split; vm_compute; reflexivity.
Qed.

(** C5 as stated fails: of ['1km5km'] the code takes out the first
    ['km'], not the unit suffix, and reads 15 where stripping the suffix
    reads 1. *)
Lemma first_km_removed_not_the_suffix :
  altValue (VString (js "1km5km")) = VNumber (Finite 15) /\
  altitude_as_specified (js "1km5km") = Finite 1 /\
  altValue (VString (js "1km5km"))
    <> VNumber (altitude_as_specified (js "1km5km")).
Proof.
  split; [vm_compute; reflexivity|]. split; [vm_compute; reflexivity|].
  vm_compute. discriminate.
Qed.

Lemma altitude_normalization_witness :
  occurs (js "km") (js " 400 ") = false /\
  all_whitespace (js " ") = true /\
  altValue (VString (js " 400 " ++ js "km" ++ js " "))
    = VNumber (altitude_as_specified (js " 400 " ++ js "km" ++ js " ")).
Proof.
  split; [reflexivity|]. split; [reflexivity|].
  destruct altitude_normalization as (_ & _ & Hsuffix & _).
  apply Hsuffix; reflexivity.
Defined.

(** ** The store *)

Lemma Map_get_set_same (k : Key) (v : SatelliteData) (m : SatelliteMap) :
  Map_get k (Map_set k v m) = Some v.
Proof. apply alist_get_set_same, Key_eqb_eq. Qed.


Lemma ws_onmessage_store (data : jsstring) (now now' : Z) (st : State) :
  let st' := exec (ws_onmessage data now now') st in
  satellites (ui st') = satellites (ui st) \/
  exists k v, satellites (ui st') = Map_set k v (satellites (ui st)).
Proof.
  destruct_state st. js_run;
    first [left; reflexivity | right; eexists; eexists; reflexivity].
Qed.

Lemma step_store (st : State) (e : Event) :
  satellites (ui (step st e)) = satellites (ui st) \/
  exists k v, satellites (ui (step st e)) = Map_set k v (satellites (ui st)).
Proof.
  destruct e as [s|s data now now'|s|s code reason|id refused|].
  2: { unfold step, deliver, bind, read, ret, exec. simpl.
       destruct (s <? sockets (host st))%nat; [|left; reflexivity].
       apply ws_onmessage_store. }
  all: left; destruct_state st; unfold find_timer; js_run; reflexivity.
Qed.

Lemma Map_set_keys_distinct (k : Key) (v : SatelliteData) (m : SatelliteMap) :
  NoDup (map fst m) -> NoDup (map fst (Map_set k v m)).
Proof. apply alist_set_NoDup, Key_eqb_eq. Qed.

Lemma reachable_store_keys_distinct (st : State) :
  reachable st -> store_keys_distinct st.
Proof.
  revert st. apply reachable_ind; unfold store_keys_distinct.
  - intros [|]; constructor.
  - intros st e _ Hnd.
    destruct (step_store st e) as [-> | (k & v & ->)];
      [exact Hnd | apply Map_set_keys_distinct, Hnd].
Qed.

Lemma receive_keys_distinct (st : State) (d : Delivery) :
  store_keys_distinct st -> store_keys_distinct (receive st d).
Proof.
  unfold store_keys_distinct, receive. intros Hnd.
  destruct (ws_onmessage_store (payload d) (clock d) (clock' d) st)
    as [-> | (k & v & ->)];
    [exact Hnd | apply Map_set_keys_distinct, Hnd].
Qed.

Lemma receive_stays_mounted (st : State) (d : Delivery) :
  isMounted (vars (receive st d)) = isMounted (vars st).
Proof.
  unfold receive.
  destruct (ws_onmessage_frame (payload d) (clock d) (clock' d) st)
    as (-> & _). reflexivity.
Qed.

Lemma carries_classified (msg : Value) (p : SatellitePosition) (st : State) :
  carries msg p ->
  fst (isConnectionMessage msg st) = Return false /\
  fst (isSatellitePosition msg st) = Return true.
Proof.
  intros ((members & ->) & Htype & _ & Hnorad & _).
  unfold isConnectionMessage, isSatellitePosition, in_operator, bind, ret.
  unfold has_property. cbn [fst]. rewrite Htype, andb_false_r.
  split; [reflexivity|].
  unfold get_property in Hnorad. unfold alist_has.
  destruct (alist_get jsstring_eqb (js "norad") members);
    [reflexivity | discriminate].
Qed.

(** A valid position message puts its record under its [norad]. *)
Lemma receive_valid_position
  (st : State) (d : Delivery) (p : SatellitePosition) :
  isMounted (vars st) = true ->
  valid_position (payload d) p ->
  satellites (ui (receive st d)) =
    Map_set (KNumber (Number_of_Z (position_norad p)))
      (stored_record p (clock' d)) (satellites (ui st)).
Proof.
  intros Hm (msg & Hp & Hcarries).
  destruct (carries_classified msg p st Hcarries) as (Hc & Hn).
  destruct (onmessage_position st _ (clock d) (clock' d) msg Hm Hp Hc Hn)
    as (key & Hk & Hs & _).
  destruct Hcarries as (_ & _ & Hname & Hnorad & Hlat & Hlon & Halt).
  unfold receive. rewrite Hs.
  rewrite Hnorad in Hk. cbn in Hk. injection Hk as <-.
  unfold stored_record. rewrite Hname, Hnorad, Hlat, Hlon, Halt.
  reflexivity.
Qed.

Lemma alist_count_at_most_one (k : Key) (m : SatelliteMap) :
  NoDup (map fst m) -> (alist_count Key_eqb k m <= 1)%nat.
Proof.
  intros Hnd. unfold alist_count.
  induction m as [|[k0 v0] m IH]; simpl; [lia|].
  inversion Hnd as [|? ? Hnotin Hnd']; subst.
  destruct (Key_eqb k k0) eqn:E; simpl; [|auto].
  apply Key_eqb_eq in E. subst k0.
  pose proof (alist_count_absent Key_eqb Key_eqb_eq k m Hnotin) as H0.
  unfold alist_count in H0. rewrite H0. lia.
Qed.

(** On an altitude of a documented form the handler's [altValue] is the
    specified normalization. *)
Lemma stored_record_normalized (p : SatellitePosition) (t : Z) :
  alt_as_documented p -> stored_record p t = normalized p t.
Proof.
  unfold alt_as_documented, stored_record, normalized, normalized_alt,
    alt_on_the_wire.
  destruct (position_alt p) as [n | text]; [reflexivity|].
  intros (pre & post & -> & Hpre & Hpost). f_equal.
  unfold altValue, altitude_as_specified.
  change (js "") with (@nil N).
  rewrite String_replace_first_km by exact Hpre.
  rewrite trim_app_whitespace by exact Hpost.
  rewrite trim_km_suffix by exact Hpost.
  rewrite strip_unit_suffix_km, trim_trimStart. reflexivity.
Qed.

(** C1.  The store of a reachable state never has two records under one
    key.  After a run of valid position messages for one NORAD id,
    received while mounted, the store has exactly one record under that
    id, and it is the last message's: its name, norad, lat, lon, and its
    alt normalized as the specification words it (a number as it is, a
    text with its trailing unit and surrounding whitespace stripped and
    parsed).  A valid message carries its alt in a documented wire form:
    a number, or a text whose only ['km'] is its trailing unit. *)
Theorem last_position_wins (st : State) :
  reachable st ->
  (forall k, (alist_count Key_eqb k (satellites (ui st)) <= 1)%nat) /\
  (forall (n : Z) (earlier : list (Delivery * SatellitePosition))
          (d : Delivery) (p : SatellitePosition),
     isMounted (vars st) = true ->
     (forall d0 p0, In (d0, p0) (earlier ++ [(d, p)]) ->
        valid_position (payload d0) p0 /\ alt_as_documented p0 /\
        position_norad p0 = n) ->
     let st' := fold_left receive (map fst (earlier ++ [(d, p)])) st in
     let key := KNumber (Number_of_Z n) in
     Map_get key (satellites (ui st')) = Some (normalized p (clock' d)) /\
     alist_count Key_eqb key (satellites (ui st')) = 1%nat).
Proof.
  intros Hr.
  pose proof (reachable_store_keys_distinct st Hr) as Hnd.
  split; [intros k; apply alist_count_at_most_one, Hnd|].
  intros n earlier d p Hm Hall st' key.
  assert (Hfold : forall l s,
            store_keys_distinct s -> isMounted (vars s) = true ->
            store_keys_distinct (fold_left receive l s) /\
            isMounted (vars (fold_left receive l s)) = true).
  { induction l as [|d0 l IH]; intros s Hs Hms; simpl; [auto|].
    apply IH; [apply receive_keys_distinct, Hs|].
    rewrite receive_stays_mounted. exact Hms. }
  unfold st'. rewrite map_app, fold_left_app. simpl.
  destruct (Hfold (map fst earlier) st Hnd Hm) as (Hnd1 & Hm1).
  set (st1 := fold_left receive (map fst earlier) st) in *.
  destruct (Hall d p) as (Hvalid & Hdoc & Hn).
  { apply in_or_app. right. left. reflexivity. }
  pose proof (receive_valid_position st1 d p Hm1 Hvalid) as Hs.
  rewrite (stored_record_normalized p (clock' d) Hdoc) in Hs.
  rewrite Hn in Hs. fold key in Hs.
  pose proof (receive_keys_distinct st1 d Hnd1) as Hnd2.
  unfold store_keys_distinct in Hnd2.
  split.
  - rewrite Hs. apply Map_get_set_same.
  - apply (alist_count_NoDup Key_eqb Key_eqb_eq); [exact Hnd2|].
    rewrite Hs. unfold Map_set.
    apply (alist_set_keys Key_eqb Key_eqb_eq). left. reflexivity.
Qed.

(** ** The store and the list of the view *)

Lemma Map_values_set_new (k : Key) (v : SatelliteData) (m : SatelliteMap) :
  In v (Map_values (Map_set k v m)).
Proof.
  unfold Map_values, Map_set.
  induction m as [|[k0 v0] m IH]; simpl; [left; reflexivity|].
  destruct (Key_eqb k k0); simpl; [left; reflexivity | right; exact IH].
Qed.

Lemma Map_values_set_old (k : Key) (v r : SatelliteData) (m : SatelliteMap) :
  In r (Map_values (Map_set k v m)) -> r = v \/ In r (Map_values m).
Proof.
  unfold Map_values, Map_set.
  induction m as [|[k0 v0] m IH]; simpl.
  - intros [H | []]; left; congruence.
  - destruct (Key_eqb k k0); simpl.
    + intros [H | H]; [left; congruence | right; right; exact H].
    + intros [H | H]; [right; left; exact H|].
      destruct (IH H) as [H' | H']; [left | right; right]; exact H'.
Qed.

Lemma Map_set_not_empty (k : Key) (v : SatelliteData) (m : SatelliteMap) :
  Nat.eqb (Map_size (Map_set k v m)) 0 = false.
Proof.
  unfold Map_size, Map_set. destruct m as [|[k0 v0] m]; simpl;
    [reflexivity|]. destruct (Key_eqb k k0); reflexivity.
Qed.

Section ViewFacts.
Variable Number_toString : Q -> jsstring.
Variable toLocaleTimeString : Z -> jsstring.

(** The list renders when each record does, one card per record. *)
Lemma render_cards_total (sats : list SatelliteData) :
  (forall r, In r sats ->
     exists c, render_card Number_toString toLocaleTimeString r = Return c) ->
  exists cards,
    render_cards Number_toString toLocaleTimeString sats = Return cards /\
    forall r c,
      In r sats ->
      render_card Number_toString toLocaleTimeString r = Return c ->
      In c cards.
Proof.
  induction sats as [|sat sats IH]; intros Hall.
  - exists []. split; [reflexivity | intros r c []].
  - destruct (Hall sat (or_introl eq_refl)) as (c0 & Hc0).
    destruct IH as (cs & Hcs & Hin).
    { intros r Hr. apply Hall. right. exact Hr. }
    exists (c0 :: cs). split.
    + simpl.
      rewrite Hc0, Hcs. reflexivity.
    + intros r c [<- | Hr] Hc.
      * left. congruence.
      * right. exact (Hin r c Hr Hc).
Qed.

Lemma render_card_NaN_altitude (n nr : Value) (la lo : Number) (t : Z) :
  render_card Number_toString toLocaleTimeString
    {| name := n; norad := nr; lat := VNumber la;
       lon := VNumber lo; alt := VNumber NaN; timestamp := t |}
  = Return {| card_key := nr; card_heading := n; card_norad := nr;
              card_latitude := toFixed Number_toString 6 la;
              card_longitude := toFixed Number_toString 6 lo;
              card_altitude := js "NaN";
              card_last_update := toLocaleTimeString t |}.
Proof. reflexivity. Qed.

(** C10.  A position message whose altitude text does not parse is not
    dropped and gets no default: its record goes into the store under
    its norad with altitude NaN, and the list renders, with a card for
    that record whose altitude reads ['NaN']. *)
Theorem unparseable_altitude_is_stored_as_NaN
  (st : State) (data : jsstring) (now now' : Z) (msg : Value)
  (text : jsstring) (la lo : Number) :
  isMounted (vars st) = true ->
  JSON_parse data = Some msg ->
  fst (isConnectionMessage msg st) = Return false ->
  fst (isSatellitePosition msg st) = Return true ->
  get_property (js "alt") msg = VString text ->
  parseFloat (trim (String_replace (js "km") (js "") text)) = NaN ->
  get_property (js "lat") msg = VNumber la ->
  get_property (js "lon") msg = VNumber lo ->
  (forall r, In r (Map_values (satellites (ui st))) ->
     exists c, render_card Number_toString toLocaleTimeString r = Return c) ->
  let st' := exec (ws_onmessage data now now') st in
  let record :=
    {| name := get_property (js "name") msg;
       norad := get_property (js "norad") msg;
       lat := VNumber la; lon := VNumber lo;
       alt := VNumber NaN; timestamp := now' |} in
  let card :=
    {| card_key := get_property (js "norad") msg;
       card_heading := get_property (js "name") msg;
       card_norad := get_property (js "norad") msg;
       card_latitude := toFixed Number_toString 6 la;
       card_longitude := toFixed Number_toString 6 lo;
       card_altitude := js "NaN";
       card_last_update := toLocaleTimeString now' |} in
  (exists key,
     fst (Map_key (get_property (js "norad") msg) st) = Return key /\
     Map_get key (satellites (ui st')) = Some record) /\
  (exists cards,
     render_listing Number_toString toLocaleTimeString (ui st')
       = Return (Cards cards) /\
     In card cards).
Proof.
  intros Hm Hp Hc Hn Halt Hnan Hlat Hlon Hstore st' record card.
  destruct (onmessage_position st data now now' msg Hm Hp Hc Hn)
    as (key & Hk & Hs & _).
  fold st' in Hs. rewrite Hlat, Hlon, Halt in Hs.
  unfold altValue in Hs. rewrite Hnan in Hs. fold record in Hs.
  split.
  - exists key. split; [exact Hk|]. rewrite Hs. apply Map_get_set_same.
  - destruct (render_cards_total (Map_values (satellites (ui st'))))
      as (cards & Hcards & Hin).
    { intros r Hr. rewrite Hs in Hr.
      destruct (Map_values_set_old _ _ _ _ Hr) as [-> | Hold].
      - eexists. apply render_card_NaN_altitude.
      - apply Hstore, Hold. }
    exists cards. split.
    + unfold render_listing.
      rewrite Hs at 1. rewrite Map_set_not_empty.
      rewrite Hcards. reflexivity.
    + apply (Hin record card).
      * rewrite Hs. apply Map_values_set_new.
      * apply render_card_NaN_altitude.
Qed.

End ViewFacts.

(** ** The connection manager *)

(** The error handler on its own: while mounted it marks the connection
    disconnected and shows ['Connection error - retrying...']; it returns
    normally and schedules nothing itself, leaving the timers and the
    closure variables as they were.  The close handler that runs next
    schedules the reconnect, when no handle is stored. *)
Theorem error_event_marks_disconnected (st : State) :
  isMounted (vars st) = true ->
  let st' := exec ws_onerror st in
  fst (ws_onerror st) = Return tt /\
  connected (ui st') = false /\
  connectionStatus (ui st') = VString (js "Connection error - retrying...") /\
  satellites (ui st') = satellites (ui st) /\
  messageCount (ui st') = messageCount (ui st) /\
  vars st' = vars st /\
  timers (host st') = timers (host st) /\
  (forall code reason,
     reconnectTimeout (vars st) = None ->
     timers (host (exec (ws_onclose code reason) st')) =
       timers (host st') ++
       [{| timer_id := next_timer (host st');
           timer_delay := 3000;
           timer_callback := ReconnectAfterClose |}]).
Proof.
  destruct_state st. cbn [vars isMounted reconnectTimeout]. intros ->.
  js_unfold. repeat split. intros code reason ->. reflexivity.
Qed.

Lemma error_event_marks_disconnected_witness :
  let st := run (mount false) [SocketOpen 0] in
  isMounted (vars st) = true /\
  connected (ui (exec ws_onerror st)) = false /\
  timers (host (exec ws_onerror st)) = timers (host st).
Proof.
  assert (Hm : isMounted (vars (run (mount false) [SocketOpen 0])) = true)
    by reflexivity.
  destruct (error_event_marks_disconnected _ Hm)
    as (_ & Hc & _ & _ & _ & _ & Ht & _).
  split; [exact Hm | split; [exact Hc | exact Ht]].
Defined.

(** A close finds the handle of an earlier timer still stored and
    schedules nothing, whether that timer is pending or has fired. *)
Lemma close_with_handle_stored
  (st : State) (code : Z) (reason : jsstring) (h : positive) :
  isMounted (vars st) = true ->
  reconnectTimeout (vars st) = Some h ->
  let st' := exec (ws_onclose code reason) st in
  timers (host st') = timers (host st) /\
  vars st' = vars st /\
  sockets (host st') = sockets (host st) /\
  connected (ui st') = false /\
  connectionStatus (ui st') = VString (js "Disconnected - reconnecting...").
Proof.
  destruct_state st. cbn [vars isMounted reconnectTimeout]. intros -> ->.
  js_unfold. repeat split.
Qed.

(** A close with no handle stored schedules one timer, with the
    reconnect delay. *)
Lemma close_with_no_handle
  (st : State) (code : Z) (reason : jsstring) :
  isMounted (vars st) = true ->
  reconnectTimeout (vars st) = None ->
  let st' := exec (ws_onclose code reason) st in
  timers (host st') =
    timers (host st) ++
    [{| timer_id := next_timer (host st); timer_delay := 3000;
        timer_callback := ReconnectAfterClose |}] /\
  reconnectTimeout (vars st') = Some (next_timer (host st)) /\
  connected (ui st') = false /\
  connectionStatus (ui st') = VString (js "Disconnected - reconnecting...").
Proof.
  destruct_state st. cbn [vars isMounted reconnectTimeout]. intros -> ->.
  js_unfold. repeat split.
Qed.

Lemma at_most_one_timer_pending (st : State) :
  reachable st -> (List.length (timers (host st)) <= 1)%nat.
Proof.
  intros Hr. destruct (reachable_timers_tracked st Hr) as [-> | (t & -> & _)];
    simpl; lia.
Qed.

(** Once the handle is stale, nothing but an open brings back a timer or
    a socket. *)
Lemma reconnect_dead_step (st : State) (e : Event) :
  is_open e = false ->
  reconnect_dead st ->
  reconnect_dead (step st e) /\ sockets (host (step st e)) = sockets (host st).
Proof.
  unfold reconnect_dead. intros Hopen (Ht & Hh).
  destruct e as [s|s data now now'|s|s code reason|id refused|];
    [discriminate| | | | |].
  - unfold step, deliver, bind, read, ret, exec. simpl.
    destruct (s <? sockets (host st))%nat; [|auto].
    destruct (ws_onmessage_frame data now now' st)
      as (Hv & Ht' & _ & Hs & _).
    unfold exec in *. rewrite Hv, Ht', Hs. auto.
  - destruct_state st. simpl in *. subst pending.
    js_run; simpl; auto.
  - destruct_state st. simpl in *. subst pending.
    destruct handle as [h|]; [|congruence].
    js_run; simpl; repeat split; auto; discriminate.
  - destruct_state st. simpl in *. subst pending.
    unfold step, deliver, bind, read, ret, exec. simpl. auto.
  - destruct_state st. simpl in *. subst pending.
    destruct handle as [h|]; [|congruence].
    js_run; simpl; repeat split; auto; discriminate.
Qed.

Lemma reconnect_dead_run (st : State) (events : list Event) :
  forallb (fun e => negb (is_open e)) events = true ->
  reconnect_dead st ->
  reconnect_dead (run st events) /\
  sockets (host (run st events)) = sockets (host st).
Proof.
  revert st. induction events as [|e events IH]; intros st Hall Hd; simpl.
  - auto.
  - simpl in Hall. apply andb_true_iff in Hall. destruct Hall as (He & Hall).
    apply negb_true_iff in He.
    destruct (reconnect_dead_step st e He Hd) as (Hd' & Hs).
    destruct (IH (step st e) Hall Hd') as (Hd'' & Hs').
    split; [exact Hd'' | congruence].
Qed.

(** C2 at the failing input.  With the feed down, the second socket's
    close finds the handle of the timer that has fired and schedules
    nothing: the component stays mounted, shows
    ['Disconnected - reconnecting...'], and has no timer pending; no
    event short of an open brings a timer or a new socket back. *)
Theorem reconnect_stops_after_failed_attempt :
  let st := run (mount false) feed_down_twice in
  reachable st /\
  isMounted (vars st) = true /\
  connected (ui st) = false /\
  connectionStatus (ui st) = VString (js "Disconnected - reconnecting...") /\
  timers (host st) = [] /\
  forall events,
    forallb (fun e => negb (is_open e)) events = true ->
    timers (host (run st events)) = [] /\
    sockets (host (run st events)) = 2%nat.
Proof.
  cbv zeta. split; [exists false, feed_down_twice; reflexivity|].
  repeat split; try reflexivity.
  - apply (reconnect_dead_run _ events H). split; [reflexivity | discriminate].
  - destruct (reconnect_dead_run (run (mount false) feed_down_twice) events H)
      as (_ & ->); [split; [reflexivity | discriminate] | reflexivity].
Qed.

(** C7 at the failing input.  In the reachable, mounted state after a
    reconnect attempt that has not opened, no timer is pending, and the
    close of the current socket schedules none. *)
Theorem close_after_failed_attempt_schedules_nothing :
  let st := run (mount false)
              [SocketError 0; SocketClose 0 1006 []; TimerFires 1 false] in
  let st' := step st (SocketClose 1 1006 []) in
  reachable st /\
  isMounted (vars st) = true /\
  ws (vars st) = Some 1%nat /\
  timers (host st) = [] /\
  connectionStatus (ui st') = VString (js "Disconnected - reconnecting...") /\
  timers (host st') = [].
Proof.
  cbv zeta. split; [eexists false, _; reflexivity|]. repeat split.
Qed.

(** C3 at the failing input.  The error event of a socket built by a
    reconnect attempt is handled without throwing: the connection is
    marked disconnected and the status reads
    ['Connection error - retrying...'].  But no reconnect is scheduled,
    neither by the error handler nor by the close that follows it, since
    the handle of the timer that fired is still stored.  The same two
    events on a socket that had opened do schedule the reconnect,
    3000 ms later. *)
Theorem error_after_failed_attempt_gets_no_reconnect :
  let st := run (mount false)
              [SocketError 0; SocketClose 0 1006 []; TimerFires 1 false] in
  let failed := step st (SocketError 1) in
  let gone := step failed (SocketClose 1 1006 []) in
  let healthy := run (mount false) [SocketOpen 0] in
  reachable st /\
  isMounted (vars st) = true /\
  ws (vars st) = Some 1%nat /\
  fst (deliver (SocketError 1) st) = Return tt /\
  connected (ui failed) = false /\
  connectionStatus (ui failed)
    = VString (js "Connection error - retrying...") /\
  timers (host failed) = [] /\
  timers (host gone) = [] /\
  isMounted (vars gone) = true /\
  timers (host (run healthy [SocketError 0; SocketClose 0 1006 []])) =
    [{| timer_id := 1; timer_delay := 3000;
        timer_callback := ReconnectAfterClose |}].
Proof.
  cbv zeta. split; [eexists false, _; reflexivity|]. repeat split.
Qed.

(** ** The theorems at concrete inputs *)

Lemma teardown_stops_all_updates_witness :
  let st :=
    run (mount false)
      [SocketOpen 0;
       SocketMessage 0 iss_at_408km 1 2;
       SocketClose 0 1006 []] in
  let late :=
    [SocketMessage 0 iss_moved 3 4;
     SocketOpen 0; SocketError 0; SocketClose 0 1000 [];
     TimerFires 1 false] in
  reachable st /\
  timers (host st) <> [] /\
  ui (run (step st Unmount) late) = ui st /\
  timers (host (step st Unmount)) = [] /\
  In 0%nat (closed (host (step st Unmount))).
Proof.
  intros st late.
  assert (Hr : reachable st) by (eexists false, _; reflexivity).
  destruct (teardown_stops_all_updates st late Hr)
    as (_ & Hu & Hu' & _ & Ht & _ & Hc).
  split; [exact Hr|]. split; [discriminate|].
  split; [congruence|]. split; [exact Ht|].
  apply Hc. reflexivity.
Defined.

Lemma decode_failure_only_counts_witness :
  let st := run (mount false) [SocketOpen 0] in
  let data := js "{'norad': 25544" in
  let st' := exec (ws_onmessage data 1 2) st in
  isMounted (vars st) = true /\
  JSON_parse data = None /\
  messageCount (ui st') = 1 /\
  satellites (ui st') = satellites (ui st) /\
  connectionStatus (ui st') = connectionStatus (ui st) /\
  connected (ui st') = connected (ui st).
Proof.
  intros st data st'.
  assert (Hm : isMounted (vars st) = true) by reflexivity.
  assert (Hp : JSON_parse data = None) by (vm_compute; reflexivity).
  destruct (decode_failure_only_counts st data 1 2 Hm Hp)
    as (_ & Hcount & Hsat & Hstatus & Hconn & _).
  split; [exact Hm|]. split; [exact Hp|].
  split; [exact Hcount|]. split; [exact Hsat|].
  split; [exact Hstatus | exact Hconn].
Defined.

Lemma connection_message_sets_status_text_only_witness :
  let st := mount false in
  let data := welcome in
  let st' := exec (ws_onmessage data 1 2) st in
  isMounted (vars st) = true /\
  connected (ui st) = false /\
  connectionStatus (ui st') = VString (js "Welcome") /\
  satellites (ui st') = [] /\
  connected (ui st') = false.
Proof.
  intros st data st'.
  assert (Hm : isMounted (vars st) = true) by reflexivity.
  pose (members :=
    [(js "type", VString (js "connection"));
     (js "message", VString (js "Welcome"));
     (js "status", VString (js "connected"))]).
  assert (Hp : JSON_parse data = Some (VObject members))
    by (vm_compute; reflexivity).
  assert (Ht : alist_get jsstring_eqb (js "type") members
               = Some (VString (js "connection"))) by reflexivity.
  destruct (connection_message_sets_status_text_only
              st data 1 2 members Hm Hp Ht) as (Hstatus & Hsat & Hconn).
  split; [exact Hm|]. split; [reflexivity|].
  split; [exact Hstatus|]. split; [exact Hsat | exact Hconn].
Defined.

Lemma last_position_wins_witness :
  let st := run (mount false) [SocketOpen 0] in
  let first :=
    {| payload := iss_moved; clock := 1; clock' := 2 |} in
  let second :=
    {| payload := iss_at_408km; clock := 3; clock' := 4 |} in
  let st' := fold_left receive [first; second] st in
  reachable st /\
  isMounted (vars st) = true /\
  unit_only_trailing (js "408km") /\
  Map_size (satellites (ui st')) = 1%nat /\
  Map_get (KNumber (Finite 25544)) (satellites (ui st')) =
    Some {| name := VString (js "ISS"); norad := VNumber (Finite 25544);
            lat := VNumber (Finite (3 # 2)); lon := VNumber (Finite 2);
            alt := VNumber (Finite 408); timestamp := 4 |} /\
  alist_count Key_eqb (KNumber (Finite 25544)) (satellites (ui st')) = 1%nat.
Proof.
  intros st first second st'.
  pose (p1 := {| position_name := js "ISS"; position_norad := 25544;
                 position_lat := Finite (5 # 2); position_lon := Finite 2;
                 position_alt := inl (Finite (817 # 2)) |}).
  pose (p2 := {| position_name := js "ISS"; position_norad := 25544;
                 position_lat := Finite (3 # 2); position_lon := Finite 2;
                 position_alt := inr (js "408km") |}).
  assert (Hr : reachable st) by (eexists false, _; reflexivity).
  assert (Hm : isMounted (vars st) = true) by reflexivity.
  assert (Hunit : unit_only_trailing (js "408km")).
  { exists (js "408"), []. repeat split. }
  assert (Hall : forall d0 p0, In (d0, p0) ([(first, p1)] ++ [(second, p2)]) ->
            valid_position (payload d0) p0 /\ alt_as_documented p0 /\
            position_norad p0 = 25544).
  { intros d0 p0 [H | [H | []]]; injection H as <- <-;
      (split; [|split; [first [exact I | exact Hunit] | reflexivity]]);
      eexists; (split; [vm_compute; reflexivity|]);
      (split; [eexists; reflexivity|]); repeat split. }
  destruct (last_position_wins st Hr) as (_ & Hlast).
  destruct (Hlast 25544 [(first, p1)] second p2 Hm Hall) as (Hget & Hcount).
  split; [exact Hr|]. split; [exact Hm|]. split; [exact Hunit|].
  split; [reflexivity|].
  split; [exact Hget | exact Hcount].
Defined.

Lemma unparseable_altitude_is_stored_as_NaN_witness :
  let st := run (mount false) [SocketOpen 0] in
  let data := iss_altitude_unknown in
  let st' := exec (ws_onmessage data 1 2) st in
  isMounted (vars st) = true /\
  parseFloat (trim (String_replace (js "km") (js "") (js "unknown"))) = NaN /\
  (exists record,
     Map_get (KNumber (Finite 25544)) (satellites (ui st')) = Some record /\
     alt record = VNumber NaN) /\
  (exists cards card,
     render_listing (fun _ => []) (fun _ => []) (ui st')
       = Return (Cards cards) /\
     In card cards /\ card_altitude card = js "NaN").
Proof.
  intros st data st'.
  pose (msg := VObject
    [(js "name", VString (js "ISS")); (js "norad", VNumber (Finite 25544));
     (js "lat", VNumber (Finite (3 # 2))); (js "lon", VNumber (Finite 2));
     (js "alt", VString (js "unknown"))]).
  assert (Hm : isMounted (vars st) = true) by reflexivity.
  assert (Hp : JSON_parse data = Some msg) by (vm_compute; reflexivity).
  assert (Hnan : parseFloat (trim (String_replace (js "km") (js "")
                                     (js "unknown"))) = NaN)
    by (vm_compute; reflexivity).
  destruct (unparseable_altitude_is_stored_as_NaN
              (fun _ => []) (fun _ => []) st data 1 2 msg (js "unknown")
              (Finite (3 # 2)) (Finite 2) Hm Hp eq_refl eq_refl eq_refl
              Hnan eq_refl eq_refl)
    as ((key & Hk & Hget) & (cards & Hlist & Hin)).
  { intros r []. }
  split; [exact Hm|]. split; [exact Hnan|]. split.
  - vm_compute in Hk. injection Hk as <-.
    eexists. split; [exact Hget | reflexivity].
  - eexists. eexists. split; [exact Hlist|]. split; [exact Hin | reflexivity].
Defined.

(** * Further properties of [app/page.tsx] *)

(** ** The connection manager *)

Ltac timers_simpl :=
  repeat (progress (unfold remove_timer, find_timer;
                    cbn [filter find timer_id app negb];
                    rewrite ?Pos.eqb_refl)).


(** X1.  An open event while mounted marks the component connected,
    shows ['Connected'], and leaves no reconnect timer behind: in a
    reachable state the pending timer (if any) is cancelled and the
    stored handle is cleared.  The socket held, the store and the
    message count are untouched. *)
Theorem open_clears_reconnect_timer (st : State) :
  reachable st ->
  isMounted (vars st) = true ->
  let st' := exec ws_onopen st in
  connected (ui st') = true /\
  connectionStatus (ui st') = VString (js "Connected") /\
  timers (host st') = [] /\
  reconnectTimeout (vars st') = None /\
  ws (vars st') = ws (vars st) /\
  satellites (ui st') = satellites (ui st) /\
  messageCount (ui st') = messageCount (ui st).
Proof.
  intros Hr Hm. pose proof (reachable_timers_tracked st Hr) as Hinv.
  destruct_state st. unfold timers_tracked in Hinv.
  cbn [vars host ui isMounted timers reconnectTimeout] in *. subst mounted.
  destruct Hinv as [-> | (t & -> & -> & _)].
  - destruct handle; js_unfold; repeat split.
  - js_unfold. timers_simpl. repeat split.
Qed.

Lemma open_clears_reconnect_timer_witness :
  let st := run (mount false) [SocketError 0; SocketClose 0 1006 []] in
  reachable st /\
  isMounted (vars st) = true /\
  timers (host st) <> [] /\
  timers (host (exec ws_onopen st)) = [] /\
  reconnectTimeout (vars (exec ws_onopen st)) = None.
Proof.
  intros st.
  assert (Hr : reachable st) by (eexists false, _; reflexivity).
  assert (Hm : isMounted (vars st) = true) by reflexivity.
  destruct (open_clears_reconnect_timer st Hr Hm) as (_ & _ & Ht & Hh & _).
  split; [exact Hr|]. split; [exact Hm|]. split; [discriminate|].
  split; [exact Ht | exact Hh].
Defined.

(** X2.  After a connection has opened, its close schedules exactly
    one reconnect, 3000 ms later, and when that timer fires the component
    builds a new socket and holds it: the reconnect works whenever the
    previous attempt reached the open state. *)
Theorem reconnect_after_open_builds_new_socket
  (st : State) (code : Z) (reason : jsstring) :
  reachable st ->
  isMounted (vars st) = true ->
  let opened := exec ws_onopen st in
  let dropped := exec (ws_onclose code reason) opened in
  let handle := next_timer (host st) in
  let again := step dropped (TimerFires handle false) in
  timers (host dropped) =
    [{| timer_id := handle; timer_delay := 3000;
        timer_callback := ReconnectAfterClose |}] /\
  connected (ui dropped) = false /\
  timers (host again) = [] /\
  sockets (host again) = S (sockets (host st)) /\
  ws (vars again) = Some (sockets (host st)) /\
  isMounted (vars again) = true.
Proof.
  intros Hr Hm. pose proof (reachable_timers_tracked st Hr) as Hinv.
  destruct_state st. unfold timers_tracked in Hinv.
  cbn [vars host ui isMounted timers reconnectTimeout] in *. subst mounted.
  destruct Hinv as [-> | (t & -> & -> & _)].
  - destruct handle; js_unfold; timers_simpl; js_unfold; timers_simpl;
      repeat split.
  - js_unfold; timers_simpl; js_unfold; timers_simpl; repeat split.
Qed.

Lemma reconnect_after_open_builds_new_socket_witness :
  let st := run (mount false) [SocketOpen 0] in
  let dropped := exec (ws_onclose 1006 []) (exec ws_onopen st) in
  reachable st /\
  isMounted (vars st) = true /\
  List.length (timers (host dropped)) = 1%nat /\
  ws (vars (step dropped (TimerFires 1 false))) = Some 1%nat.
Proof.
  intros st dropped.
  assert (Hr : reachable st) by (eexists false, _; reflexivity).
  assert (Hm : isMounted (vars st) = true) by reflexivity.
  destruct (reconnect_after_open_builds_new_socket st 1006 [] Hr Hm)
    as (Ht & _ & _ & _ & Hw & _).
  split; [exact Hr|]. split; [exact Hm|].
  split; [fold dropped in Ht; rewrite Ht; reflexivity | exact Hw].
Defined.

(** X3.  When the WebSocket constructor throws, the catch branch of
    [connect] keeps retrying without end: however many times in a row the
    pending timer fires and the constructor throws again, the component
    stays mounted with exactly one timer pending, 3000 ms, no socket
    built, and shows ['Failed to connect - retrying...']. *)
Lemma fire_pending_refused (st : State) :
  timers_tracked st ->
  isMounted (vars st) = true ->
  timers (host st) <> [] ->
  let st' := fire_pending true st in
  timers_tracked st' /\
  isMounted (vars st') = true /\
  timers (host st') =
    [{| timer_id := next_timer (host st); timer_delay := 3000;
        timer_callback := RetryAfterFailure |}] /\
  sockets (host st') = sockets (host st) /\
  ws (vars st') = ws (vars st) /\
  connectionStatus (ui st')
    = VString (js "Failed to connect - retrying...").
Proof.
  intros Hinv Hm Hne. destruct_state st. unfold timers_tracked in Hinv.
  cbn [vars host ui isMounted timers reconnectTimeout] in *. subst mounted.
  destruct Hinv as [-> | (t & -> & -> & Hd)]; [congruence|].
  unfold fire_pending. cbn [host timers].
  destruct t as [id delay [|]]; js_unfold; timers_simpl; js_unfold;
    timers_simpl; js_unfold; (split; [|repeat split]);
    right; eexists; repeat split.
Qed.

Lemma fire_pending_tracked (refused : bool) (st : State) (n : nat) :
  timers_tracked st ->
  timers_tracked (Nat.iter n (fire_pending refused) st).
Proof.
  intros Hinv. induction n as [|n IHn]; [exact Hinv|].
  rewrite Nat.iter_succ. unfold fire_pending at 1.
  destruct (timers (host (Nat.iter n (fire_pending refused) st)));
    [exact IHn | apply step_timers_tracked, IHn].
Qed.

Theorem constructor_failure_keeps_retrying (st : State) (n : nat) :
  reachable st ->
  isMounted (vars st) = true ->
  timers (host st) <> [] ->
  let st' := Nat.iter n (fire_pending true) st in
  isMounted (vars st') = true /\
  (exists t, timers (host st') = [t] /\ timer_delay t = 3000) /\
  sockets (host st') = sockets (host st) /\
  ws (vars st') = ws (vars st) /\
  ((0 < n)%nat ->
   connectionStatus (ui st')
     = VString (js "Failed to connect - retrying...")).
Proof.
  intros Hr Hm Hne.
  pose proof (reachable_timers_tracked st Hr) as Hinv.
  induction n as [|n IH]; [|rewrite Nat.iter_succ].
  - cbn [Nat.iter nat_rect]. split; [exact Hm|]. split.
    + destruct Hinv as [H | (t & H & _ & Hd)]; [congruence|].
      exists t. split; assumption.
    + repeat split. lia.
  - cbv zeta in IH. destruct IH as (Hm' & (t & Ht & Hd) & Hs & Hw & _).
    set (prev := Nat.iter n (fire_pending true) st) in *.
    assert (Hinv' : timers_tracked prev)
      by (apply fire_pending_tracked, Hinv).
    assert (Hne' : timers (host prev) <> []) by (rewrite Ht; discriminate).
    destruct (fire_pending_refused prev Hinv' Hm' Hne')
      as (_ & Hm2 & Ht2 & Hs2 & Hw2 & Hst).
    split; [exact Hm2|]. split; [eexists; split; [exact Ht2 | reflexivity]|].
    split; [congruence|]. split; [congruence|]. intros _. exact Hst.
Qed.

Lemma constructor_failure_keeps_retrying_witness :
  let st := mount true in
  reachable st /\
  isMounted (vars st) = true /\
  timers (host st) <> [] /\
  List.length (timers (host (Nat.iter 5 (fire_pending true) st))) = 1%nat /\
  sockets (host (Nat.iter 5 (fire_pending true) st)) = 0%nat.
Proof.
  intros st.
  assert (Hr : reachable st) by apply reachable_mount.
  assert (Hm : isMounted (vars st) = true) by reflexivity.
  assert (Hne : timers (host st) <> []) by discriminate.
  destruct (constructor_failure_keeps_retrying st 5 Hr Hm Hne)
    as (_ & (t & Ht & _) & Hs & _).
  split; [exact Hr|]. split; [exact Hm|]. split; [exact Hne|].
  split; [rewrite Ht; reflexivity | exact Hs].
Defined.

(** X12.  The component always holds the socket it built last, and it
    builds one only when a pending timer fires while mounted and the
    constructor does not throw: no socket event and no teardown adds a
    socket. *)
Theorem component_holds_newest_socket (st : State) :
  reachable st ->
  ws (vars st) =
    match sockets (host st) with
    | O => None
    | S newest => Some newest
    end /\
  forall e,
    sockets (host (step st e)) = sockets (host st) \/
    (exists id, e = TimerFires id false /\
                find_timer id (timers (host st)) <> None /\
                isMounted (vars st) = true /\
                sockets (host (step st e)) = S (sockets (host st))).
Proof.
  intros Hr. split.
  - revert st Hr. apply reachable_ind.
    + intros [|]; reflexivity.
    + intros st e _ IH.
      destruct e as [s|s data now now'|s|s code reason|id refused|].
      2: { unfold step, deliver, bind, read, ret, exec. cbn [fst snd].
           destruct (s <? sockets (host st))%nat; [|exact IH].
           destruct (ws_onmessage_frame data now now' st)
             as (Hv & _ & _ & Hs & _).
           unfold exec in Hv, Hs. rewrite Hv, Hs. exact IH. }
      all: destruct_state st;
        cbn [vars host ui isMounted timers reconnectTimeout ws sockets] in *;
        unfold find_timer; js_run; try exact IH; reflexivity.
  - intros e.
    destruct e as [s|s data now now'|s|s code reason|id refused|].
    2: { left. unfold step, deliver, bind, read, ret, exec. cbn [fst snd].
         destruct (s <? sockets (host st))%nat; [|reflexivity].
         destruct (ws_onmessage_frame data now now' st)
           as (_ & _ & _ & Hs & _). exact Hs. }
    5: { left. destruct_state st. js_run; reflexivity. }
    1-3: left; destruct_state st; js_run; reflexivity.
    destruct_state st. js_unfold.
    destruct (find_timer id pending) as [[i d cb]|] eqn:Ef;
      [|left; reflexivity].
    destruct mounted, refused, cb; js_unfold;
      try (left; reflexivity);
      right; exists id; repeat split; rewrite Ef; discriminate.
Qed.

Lemma component_holds_newest_socket_witness :
  let st := run (mount false)
              [SocketClose 0 1006 []; TimerFires 1 false] in
  reachable st /\ ws (vars st) = Some 1%nat /\ sockets (host st) = 2%nat.
Proof.
  intros st.
  assert (Hr : reachable st) by (eexists false, _; reflexivity).
  destruct (component_holds_newest_socket st Hr) as (Hw & _).
  split; [exact Hr|]. split; [exact Hw | reflexivity].
Defined.

(** X13.  In every reachable state at most one timer is pending; it is
    the one whose handle [reconnectTimeout] holds, and it waits
    3000 ms. *)
Theorem one_reconnect_timer_at_most (st : State) :
  reachable st ->
  (List.length (timers (host st)) <= 1)%nat /\
  forall t, In t (timers (host st)) ->
    reconnectTimeout (vars st) = Some (timer_id t) /\
    timer_delay t = 3000.
Proof.
  intros Hr.
  destruct (reachable_timers_tracked st Hr) as [-> | (t & -> & Hh & Hd)].
  - split; [simpl; lia | intros t []].
  - split; [simpl; lia|]. intros t' [<- | []]. split; assumption.
Qed.

Lemma one_reconnect_timer_at_most_witness :
  let st := run (mount false)
              [SocketClose 0 1006 []; SocketClose 0 1006 []] in
  reachable st /\
  timers (host st) <> [] /\
  (List.length (timers (host st)) <= 1)%nat.
Proof.
  intros st.
  assert (Hr : reachable st) by (eexists false, _; reflexivity).
  destruct (one_reconnect_timer_at_most st Hr) as (Hle & _).
  split; [exact Hr|]. split; [discriminate | exact Hle].
Defined.

(** ** The message handler *)

Lemma ws_onmessage_counts
  (st : State) (data : jsstring) (now now' : Z) :
  isMounted (vars st) = true ->
  let st' := exec (ws_onmessage data now now') st in
  messageCount (ui st') = messageCount (ui st) + 1 /\
  lastMessageTime (ui st') = Some now.
Proof.
  destruct_state st. cbn [vars isMounted]. intros ->.
  js_unfold.
  destruct (count + 1 <=? 3)%Z; js_unfold;
    destruct (JSON_parse data) as [msg|]; js_unfold; try (split; reflexivity);
    destruct (has_property (js "type") msg) as [[|]|]; js_unfold;
    try (split; reflexivity); cbn [andb];
    try (destruct (strict_equals_string (get_property (js "type") msg)
                     (js "connection")); js_unfold;
         try (split; reflexivity));
    destruct (has_property (js "norad") msg) as [[|]|]; js_unfold;
    try (split; reflexivity);
    destruct (get_property (js "norad") msg); js_unfold; split; reflexivity.
Qed.


Lemma receive_all_mounted (st : State) (l : list Delivery) :
  isMounted (vars (fold_left receive l st)) = isMounted (vars st).
Proof.
  revert st. induction l as [|d l IH]; intros st; [reflexivity|].
  simpl. rewrite IH. apply receive_stays_mounted.
Qed.

(** X5.  Every message handled while mounted is counted, whatever its
    payload (a position, a status, an unknown shape, text that does not
    decode): after a run of messages the count has grown by their number
    and the last-message time is the first clock reading of the last
    one. *)
Theorem every_message_is_counted
  (st : State) (earlier : list Delivery) (d : Delivery) :
  isMounted (vars st) = true ->
  let st' := fold_left receive (earlier ++ [d]) st in
  messageCount (ui st')
    = messageCount (ui st) + Z.of_nat (List.length (earlier ++ [d])) /\
  lastMessageTime (ui st') = Some (clock d).
Proof.
  intros Hm st'. unfold st'. rewrite fold_left_app. cbn [fold_left].
  assert (Hcount : forall l s,
            isMounted (vars s) = true ->
            messageCount (ui (fold_left receive l s))
              = messageCount (ui s) + Z.of_nat (List.length l)).
  { induction l as [|d0 l IH]; intros s Hs; [simpl; lia|].
    cbn [fold_left List.length]. rewrite IH.
    - unfold receive.
      destruct (ws_onmessage_counts s (payload d0) (clock d0) (clock' d0) Hs)
        as (-> & _). lia.
    - rewrite receive_stays_mounted. exact Hs. }
  assert (Hm' : isMounted (vars (fold_left receive earlier st)) = true)
    by (rewrite receive_all_mounted; exact Hm).
  specialize (Hcount earlier st Hm).
  set (mid := fold_left receive earlier st) in *.
  unfold receive.
  destruct (ws_onmessage_counts mid (payload d) (clock d) (clock' d) Hm')
    as (-> & ->).
  split; [|reflexivity].
  rewrite Hcount, length_app. simpl. lia.
Qed.

Lemma every_message_is_counted_witness :
  let st := run (mount false) [SocketOpen 0] in
  let deliveries :=
    [{| payload := js "oops"; clock := 1; clock' := 1 |};
     {| payload := js "17"; clock := 2; clock' := 2 |};
     {| payload := welcome; clock := 3; clock' := 3 |}] in
  let last := {| payload := iss_at_408km; clock := 4; clock' := 5 |} in
  let st' := fold_left receive (deliveries ++ [last]) st in
  isMounted (vars st) = true /\
  messageCount (ui st') = 4 /\
  lastMessageTime (ui st') = Some 4.
Proof.
  intros st deliveries last st'.
  assert (Hm : isMounted (vars st) = true) by reflexivity.
  destruct (every_message_is_counted st deliveries last Hm) as (Hc & Hl).
  split; [exact Hm|]. split; [exact Hc | exact Hl].
Defined.

Lemma unmounted_message (st : State) (data : jsstring) (now now' : Z) :
  isMounted (vars st) = false ->
  exec (ws_onmessage data now now') st = st.
Proof.
  destruct_state st. cbn [vars isMounted]. intros ->. reflexivity.
Qed.

Lemma step_counters (st : State) (e : Event) :
  (forall s data now now', e <> SocketMessage s data now now') ->
  messageCount (ui (step st e)) = messageCount (ui st) /\
  lastMessageTime (ui (step st e)) = lastMessageTime (ui st).
Proof.
  intros Hne.
  destruct e as [s|s data now now'|s|s code reason|id refused|];
    [| exfalso; eapply Hne; reflexivity | | | |];
    destruct_state st; unfold find_timer; js_run; split; reflexivity.
Qed.

(** X14.  The message count is zero exactly when no last-message time
    is recorded.  So the status panel, which shows the counters only
    while connected, shows a last-message line exactly when the count it
    shows is not zero. *)
Theorem count_and_last_time_go_together
  (toLocaleTimeString : Z -> jsstring) (st : State) :
  reachable st ->
  (messageCount (ui st) = 0 <-> lastMessageTime (ui st) = None) /\
  forall n t,
    panel_counters (render_panel toLocaleTimeString (ui st)) = Some (n, t) ->
    connected (ui st) = true /\ n = messageCount (ui st) /\
    (t = None <-> n = 0).
Proof.
  intros Hr.
  assert (H : 0 <= messageCount (ui st) /\
              (messageCount (ui st) = 0 <-> lastMessageTime (ui st) = None)).
  { revert st Hr. apply reachable_ind.
    - intros [|]; cbn; split; [lia | tauto | lia | tauto].
    - intros st e _ (Hpos & Hiff).
      destruct e as [s|s data now now'|s|s code reason|id refused|].
      2: { unfold step, deliver, bind, read, ret, exec. cbn [fst snd].
           destruct (s <? sockets (host st))%nat; [|split; assumption].
           destruct (isMounted (vars st)) eqn:Hm.
           - destruct (ws_onmessage_counts st data now now' Hm) as (Hc & Hl).
             unfold exec in Hc, Hl. rewrite Hc, Hl.
             split; [lia|]. split; [lia | discriminate].
           - pose proof (unmounted_message st data now now' Hm) as Hu.
             unfold exec in Hu. rewrite Hu. split; assumption. }
      all: match goal with
           | |- context [step ?s0 ?e0] =>
               destruct (step_counters s0 e0) as (-> & ->);
                 [intros; discriminate | split; assumption]
           end. }
  destruct H as (Hpos & Hiff). split; [exact Hiff|].
  intros n t. unfold render_panel. cbn [panel_counters].
  destruct (connected (ui st)); [|discriminate].
  intros Heq. injection Heq as <- <-. split; [reflexivity|].
  split; [reflexivity|].
  destruct (lastMessageTime (ui st)) as [t0|].
  - split; [discriminate|]. intros H0. apply Hiff in H0. discriminate.
  - split; [intros _; apply Hiff; reflexivity | reflexivity].
Qed.

Lemma count_and_last_time_go_together_witness :
  let st := run (mount false) [SocketOpen 0; SocketMessage 0 welcome 7 7] in
  reachable st /\
  panel_counters (render_panel (fun _ => js "12:00:07") (ui st))
    = Some (1, Some (js "12:00:07")) /\
  lastMessageTime (ui st) <> None.
Proof.
  intros st.
  assert (Hr : reachable st) by (eexists false, _; reflexivity).
  destruct (count_and_last_time_go_together (fun _ => js "12:00:07") st Hr)
    as (Hiff & _).
  split; [exact Hr|]. split; [reflexivity|].
  intros Hnone. apply Hiff in Hnone. discriminate.
Defined.

(** X4.  No message, whatever its payload, touches the connection
    manager: the handler returns normally and leaves the closure
    variables, the pending timers, the sockets, the close calls and the
    connected flag as they were. *)
Theorem message_leaves_connection_alone
  (st : State) (s : nat) (data : jsstring) (now now' : Z) :
  let st' := step st (SocketMessage s data now now') in
  fst (deliver (SocketMessage s data now now') st) = Return tt /\
  vars st' = vars st /\
  timers (host st') = timers (host st) /\
  sockets (host st') = sockets (host st) /\
  closed (host st') = closed (host st) /\
  connected (ui st') = connected (ui st).
Proof.
  unfold step, deliver, bind, read, ret, exec. cbn [fst snd].
  destruct (s <? sockets (host st))%nat; [|repeat split].
  split; [apply ws_onmessage_returns|].
  destruct (ws_onmessage_frame data now now' st)
    as (Hv & Ht & _ & Hs & Hc & Hconn).
  repeat split; assumption.
Qed.

(** ** The position store *)

Lemma Map_set_keeps_keys
  (k k0 : Key) (v : SatelliteData) (m : SatelliteMap) :
  Map_get k0 m <> None -> Map_get k0 (Map_set k v m) <> None.
Proof.
  unfold Map_get, Map_set. intros H.
  destruct (Key_eqb k k0) eqn:E.
  - apply Key_eqb_eq in E. subst k0.
    rewrite (alist_get_set_same Key_eqb Key_eqb_eq). discriminate.
  - rewrite (alist_get_set_other Key_eqb Key_eqb_eq); [exact H|].
    intros ->. rewrite Key_eqb_refl in E. discriminate.
Qed.

Lemma Map_set_size (k : Key) (v : SatelliteData) (m : SatelliteMap) :
  Map_size (Map_set k v m) =
    if alist_has Key_eqb k m then Map_size m else S (Map_size m).
Proof.
  unfold Map_size, Map_set, alist_has.
  induction m as [|[k0 v0] m IH]; [reflexivity|].
  cbn [alist_set alist_get]. destruct (Key_eqb k k0); [reflexivity|].
  cbn [List.length]. rewrite IH.
  destruct (alist_get Key_eqb k m); reflexivity.
Qed.

(** [Map.prototype.set] keeps the insertion order: a key that is present
    stays where it is, a new key goes to the end. *)
Lemma Map_set_order (k : Key) (v : SatelliteData) (m : SatelliteMap) :
  map fst (Map_set k v m) =
    if alist_has Key_eqb k m then map fst m else map fst m ++ [k].
Proof.
  unfold Map_set, alist_has.
  induction m as [|[k0 v0] m IH]; [reflexivity|].
  cbn [alist_set alist_get]. destruct (Key_eqb k k0) eqn:E.
  - apply Key_eqb_eq in E. subst k0. reflexivity.
  - cbn [map fst]. rewrite IH.
    destruct (alist_get Key_eqb k m); reflexivity.
Qed.

Lemma step_keeps_records (st : State) (e : Event) (k : Key) :
  Map_get k (satellites (ui st)) <> None ->
  Map_get k (satellites (ui (step st e))) <> None.
Proof.
  intros H. destruct (step_store st e) as [-> | (k0 & v & ->)];
    [exact H | apply Map_set_keeps_keys, H].
Qed.

Lemma step_store_size (st : State) (e : Event) :
  (Map_size (satellites (ui st)) <= Map_size (satellites (ui (step st e)))
   <= S (Map_size (satellites (ui st))))%nat.
Proof.
  destruct (step_store st e) as [-> | (k0 & v & ->)]; [lia|].
  rewrite Map_set_size.
  destruct (alist_has Key_eqb k0 (satellites (ui st))); lia.
Qed.

(** X7.  No event removes a record: a key present in the store is
    present after any run of events (teardown included), and the store
    grows by at most one record per event. *)
Theorem records_are_never_removed
  (st : State) (events : list Event) (k : Key) :
  Map_get k (satellites (ui st)) <> None ->
  Map_get k (satellites (ui (run st events))) <> None /\
  (Map_size (satellites (ui st))
   <= Map_size (satellites (ui (run st events)))
   <= Map_size (satellites (ui st)) + List.length events)%nat.
Proof.
  revert st. induction events as [|e events IH]; intros st H.
  - simpl. split; [exact H | lia].
  - cbn [run fold_left List.length].
    pose proof (step_keeps_records st e k H) as H'.
    pose proof (step_store_size st e) as Hs.
    destruct (IH (step st e) H') as (Hk & Hsize).
    unfold run in *. split; [exact Hk | lia].
Qed.

Lemma records_are_never_removed_witness :
  let st :=
    run (mount false) [SocketOpen 0; SocketMessage 0 iss_at_408km 1 2] in
  let later :=
    [SocketMessage 0 welcome 3 3; SocketError 0; SocketClose 0 1006 [];
     TimerFires 1 false; SocketOpen 1; Unmount] in
  Map_get (KNumber (Finite 25544)) (satellites (ui st)) <> None /\
  Map_get (KNumber (Finite 25544)) (satellites (ui (run st later))) <> None.
Proof.
  intros st later.
  assert (H : Map_get (KNumber (Finite 25544)) (satellites (ui st)) <> None)
    by (vm_compute; discriminate).
  destruct (records_are_never_removed st later _ H) as (Hk & _).
  split; [exact H | exact Hk].
Defined.

(** X8.  A valid position message changes the record of its own norad
    only: the lookup of every other key gives what it gave before. *)
Theorem other_ids_are_untouched
  (st : State) (d : Delivery) (p : SatellitePosition) (k : Key) :
  isMounted (vars st) = true ->
  valid_position (payload d) p ->
  k <> KNumber (Number_of_Z (position_norad p)) ->
  Map_get k (satellites (ui (receive st d))) = Map_get k (satellites (ui st)).
Proof.
  intros Hm Hv Hk. rewrite (receive_valid_position st d p Hm Hv).
  unfold Map_get, Map_set.
  apply (alist_get_set_other Key_eqb Key_eqb_eq). congruence.
Qed.

(** X11.  A valid position message keeps the order of the store, which
    is the order of the cards: for a norad already present the keys and
    the size are unchanged, for a new one the key goes to the end and
    the size grows by one. *)
Theorem update_keeps_card_order
  (st : State) (d : Delivery) (p : SatellitePosition) :
  isMounted (vars st) = true ->
  valid_position (payload d) p ->
  let key := KNumber (Number_of_Z (position_norad p)) in
  let before := satellites (ui st) in
  let after := satellites (ui (receive st d)) in
  (Map_get key before <> None ->
     map fst after = map fst before /\ Map_size after = Map_size before) /\
  (Map_get key before = None ->
     map fst after = map fst before ++ [key] /\
     Map_size after = S (Map_size before)).
Proof.
  intros Hm Hv key before after.
  assert (Hs : after = Map_set key (stored_record p (clock' d)) before)
    by apply (receive_valid_position st d p Hm Hv).
  rewrite Hs, Map_set_order, Map_set_size.
  unfold Map_get, alist_has.
  destruct (alist_get Key_eqb key before); split; intros H;
    try congruence; split; reflexivity.
Qed.

(** ** The view *)

Lemma step_store_without_message (st : State) (e : Event) :
  is_message e = false ->
  satellites (ui (step st e)) = satellites (ui st).
Proof.
  destruct e as [s|s data now now'|s|s code reason|id refused|];
    [| discriminate | | | |]; intros _;
    destruct_state st; unfold find_timer; js_run; reflexivity.
Qed.

Lemma run_store_without_message (st : State) (events : list Event) :
  forallb (fun e => negb (is_message e)) events = true ->
  satellites (ui (run st events)) = satellites (ui st).
Proof.
  revert st. induction events as [|e events IH]; intros st H; [reflexivity|].
  cbn [forallb] in H. apply andb_true_iff in H. destruct H as (He & H).
  apply negb_true_iff in He. cbn [run fold_left].
  change (fold_left step events (step st e)) with (run (step st e) events).
  rewrite (IH _ H). apply step_store_without_message, He.
Qed.

Section ViewTotality.
Variable Number_toString : Q -> jsstring.
Variable toLocaleTimeString : Z -> jsstring.

Lemma render_card_numeric (r : SatelliteData) :
  numeric_record r = true ->
  exists c, render_card Number_toString toLocaleTimeString r = Return c /\
            card_norad c = norad r /\ card_heading c = name r.
Proof.
  unfold numeric_record, render_card, call_toFixed.
  destruct (lat r); try discriminate.
  destruct (lon r); try discriminate.
  destruct (alt r); try discriminate.
  intros _. eexists. repeat split.
Qed.

Lemma render_card_not_numeric (r : SatelliteData) :
  numeric_record r = false ->
  render_card Number_toString toLocaleTimeString r = Throw TypeError.
Proof.
  unfold numeric_record, render_card, call_toFixed.
  destruct (lat r); try reflexivity;
    destruct (lon r); try reflexivity;
    destruct (alt r); try reflexivity; discriminate.
Qed.

Lemma render_cards_not_numeric (sats : list SatelliteData) :
  forallb numeric_record sats = false ->
  render_cards Number_toString toLocaleTimeString sats = Throw TypeError.
Proof.
  induction sats as [|r sats IH]; intros H; [discriminate|].
  cbn [forallb] in H. cbn [render_cards].
  destruct (numeric_record r) eqn:Hr.
  - destruct (render_card_numeric r Hr) as (c & -> & _).
    rewrite IH by exact H. reflexivity.
  - rewrite render_card_not_numeric by exact Hr. reflexivity.
Qed.



(** X10.  A message classified as a position update is stored without
    any check of its fields: when its lat, lon or normalized alt is not a
    number (a missing field, a string, null), the handler returns
    normally, the record is in the store, and the list of the view throws
    a TypeError, then and after any events that bring no message. *)
Theorem position_without_numeric_field_breaks_list
  (st : State) (data : jsstring) (now now' : Z) (msg : Value) :
  isMounted (vars st) = true ->
  JSON_parse data = Some msg ->
  fst (isConnectionMessage msg st) = Return false ->
  fst (isSatellitePosition msg st) = Return true ->
  numeric_record (position_record msg now') = false ->
  let st' := exec (ws_onmessage data now now') st in
  fst (ws_onmessage data now now' st) = Return tt /\
  In (position_record msg now') (Map_values (satellites (ui st'))) /\
  forall late,
    forallb (fun e => negb (is_message e)) late = true ->
    render_listing Number_toString toLocaleTimeString (ui (run st' late))
      = Throw TypeError.
Proof.
  intros Hm Hp Hc Hn Hbad st'.
  destruct (onmessage_position st data now now' msg Hm Hp Hc Hn)
    as (key & _ & Hs & _).
  fold st' in Hs. fold (position_record msg now') in Hs.
  split; [apply ws_onmessage_returns|].
  assert (Hin : In (position_record msg now')
                  (Map_values (satellites (ui st'))))
    by (rewrite Hs; apply Map_values_set_new).
  split; [exact Hin|].
  intros late Hlate. unfold render_listing, Map_size.
  rewrite (run_store_without_message st' late Hlate).
  destruct (satellites (ui st')) as [|e m] eqn:Es; [destruct Hin|].
  cbn [List.length Nat.eqb].
  rewrite render_cards_not_numeric; [reflexivity|].
  apply not_true_is_false. intros Hall.
  rewrite forallb_forall in Hall. rewrite (Hall _ Hin) in Hbad.
  discriminate.
Qed.

End ViewTotality.

(** ** Altitudes on the wire *)

Lemma take_digits_all (ds rest : jsstring) :
  all_digits ds = true ->
  match rest with
  | [] => True
  | c :: _ => is_digit c = false
  end ->
  take_digits (ds ++ rest) = (ds, rest).
Proof.
  intros Hds Hrest. induction ds as [|d ds IH]; cbn [app].
  - destruct rest as [|c r]; [reflexivity|].
    cbn [take_digits]. rewrite Hrest. reflexivity.
  - cbn [all_digits forallb] in Hds. apply andb_true_iff in Hds.
    destruct Hds as (Hd & Hds). cbn [take_digits]. rewrite Hd.
    rewrite (IH Hds). reflexivity.
Qed.

Lemma digit_is_visible (c : N) : is_digit c = true -> is_whitespace c = false.
Proof.
  unfold is_digit, is_whitespace. intros H.
  apply andb_true_iff in H. destruct H as (H1 & H2).
  apply N.leb_le in H1. apply N.leb_le in H2.
  cbn [existsb]. rewrite !orb_false_r.
  repeat match goal with
         | |- context [N.eqb c ?k] =>
             replace (N.eqb c k) with false
               by (symmetry; apply N.eqb_neq; lia)
         end.
  cbn [orb]. apply andb_false_iff. left. apply N.leb_gt. lia.
Qed.

Lemma digit_facts (c : N) :
  is_digit c = true ->
  N.eqb c 43 = false /\ N.eqb c 45 = false /\ N.eqb c 46 = false /\
  N.eqb 73 c = false /\ N.eqb 107 c = false.
Proof.
  unfold is_digit. intros H.
  apply andb_true_iff in H. destruct H as (H1 & H2).
  apply N.leb_le in H1. apply N.leb_le in H2.
  repeat split; apply N.eqb_neq; lia.
Qed.

(** [parseFloat] reads a decimal numeral whole. *)
Lemma parseFloat_numeral (ip fp : jsstring) :
  ip <> [] -> fp <> [] ->
  all_digits ip = true -> all_digits fp = true ->
  parseFloat (ip ++ 46%N :: fp) = Number_of_Q (decimal_MV ip fp 0).
Proof.
  intros Hine Hfne Hi Hf.
  destruct ip as [|d ip]; [congruence|].
  pose proof Hi as Hi0. cbn [all_digits forallb] in Hi0.
  apply andb_true_iff in Hi0. destruct Hi0 as (Hd & _).
  destruct (digit_facts d Hd) as (Hplus & Hminus & _ & HI & _).
  unfold parseFloat. cbn [app trimStart].
  rewrite (digit_is_visible d Hd), Hplus, Hminus.
  unfold StrUnsignedDecimalLiteral.
  change (js "Infinity") with (73%N :: js "nfinity"). cbn [starts_with].
  rewrite HI. cbn [andb].
  change (d :: ip ++ 46%N :: fp) with ((d :: ip) ++ 46%N :: fp).
  rewrite (take_digits_all (d :: ip) (46%N :: fp) Hi) by reflexivity.
  rewrite N.eqb_refl.
  rewrite <- (app_nil_r fp) at 1.
  rewrite (take_digits_all fp [] Hf) by exact I.
  destruct fp as [|f fp]; [congruence|]. reflexivity.
Qed.

Lemma parseFloat_integer (ip : jsstring) :
  ip <> [] -> all_digits ip = true ->
  parseFloat ip = Number_of_Q (decimal_MV ip [] 0).
Proof.
  intros Hine Hi.
  destruct ip as [|d ip]; [congruence|].
  pose proof Hi as Hi0. cbn [all_digits forallb] in Hi0.
  apply andb_true_iff in Hi0. destruct Hi0 as (Hd & _).
  destruct (digit_facts d Hd) as (Hplus & Hminus & _ & HI & _).
  unfold parseFloat. cbn [trimStart].
  rewrite (digit_is_visible d Hd), Hplus, Hminus.
  unfold StrUnsignedDecimalLiteral.
  change (js "Infinity") with (73%N :: js "nfinity"). cbn [starts_with].
  rewrite HI. cbn [andb].
  rewrite <- (app_nil_r (d :: ip)) at 1.
  rewrite (take_digits_all (d :: ip) [] Hi) by exact I. reflexivity.
Qed.

Lemma occurs_km_no_k (s : jsstring) :
  forallb (fun c => negb (N.eqb 107 c)) s = true ->
  occurs (js "km") s = false.
Proof.
  induction s as [|c s IH]; intros H; [reflexivity|].
  cbn [forallb] in H. apply andb_true_iff in H. destruct H as (Hc & Hs).
  apply negb_true_iff in Hc.
  cbn [occurs]. rewrite (IH Hs), orb_false_r.
  change (js "km") with [107%N; 109%N]. cbn [starts_with]. rewrite Hc.
  reflexivity.
Qed.

Lemma whitespace_no_k (c : N) :
  is_whitespace c = true -> negb (N.eqb 107 c) = true.
Proof.
  intros H. apply negb_true_iff. apply N.eqb_neq. intros <-.
  vm_compute in H. discriminate.
Qed.

Lemma numeral_text_no_km (w1 ip fp w2 : jsstring) :
  all_whitespace w1 = true -> all_digits ip = true ->
  all_digits fp = true -> all_whitespace w2 = true ->
  occurs (js "km") (w1 ++ ip ++ fp ++ w2) = false /\
  occurs (js "km") (w1 ++ (ip ++ 46%N :: fp) ++ w2) = false.
Proof.
  intros H1 Hi Hf H2.
  assert (Hw : forall w, all_whitespace w = true ->
                 forallb (fun c => negb (N.eqb 107 c)) w = true).
  { intros w Hw. unfold all_whitespace in Hw. rewrite forallb_forall in *.
    intros c Hc. apply whitespace_no_k, Hw, Hc. }
  assert (Hd : forall ds, all_digits ds = true ->
                 forallb (fun c => negb (N.eqb 107 c)) ds = true).
  { intros ds Hds. unfold all_digits in Hds. rewrite forallb_forall in *.
    intros c Hc. apply negb_true_iff.
    destruct (digit_facts c (Hds c Hc)) as (_ & _ & _ & _ & Hk). exact Hk. }
  split; apply occurs_km_no_k; rewrite !forallb_app; cbn [forallb];
    rewrite (Hw w1 H1), (Hw w2 H2), (Hd ip Hi), (Hd fp Hf); reflexivity.
Qed.

Lemma trim_visible_ends (c : N) (mid : jsstring) (e : N) :
  is_whitespace c = false -> is_whitespace e = false ->
  trim (c :: mid ++ [e]) = c :: mid ++ [e].
Proof.
  intros Hc He. unfold trim. cbn [trimStart]. rewrite Hc.
  change (c :: mid ++ [e]) with ((c :: mid) ++ [e]).
  apply trimEnd_visible, He.
Qed.

Lemma trim_single_visible (c : N) :
  is_whitespace c = false -> trim [c] = [c].
Proof.
  intros Hc. unfold trim. cbn [trimStart]. rewrite Hc.
  apply (trimEnd_visible [] c Hc).
Qed.

(** A text that starts and ends with a digit is its own [trim], also
    inside whitespace. *)
Lemma trim_digits_ends (w1 s w2 : jsstring) (d e : N) (mid : jsstring) :
  all_whitespace w1 = true -> all_whitespace w2 = true ->
  is_digit d = true -> is_digit e = true ->
  (s = d :: mid ++ [e] \/ (s = [d] /\ mid = [] /\ e = d)) ->
  trim (w1 ++ s ++ w2) = s.
Proof.
  intros H1 H2 Hd He Hs.
  rewrite app_assoc, trim_app_whitespace by exact H2.
  unfold trim at 1. rewrite trimStart_whitespace by exact H1.
  fold (trim s).
  destruct Hs as [-> | (-> & _ & _)].
  - apply trim_visible_ends; apply digit_is_visible; assumption.
  - apply trim_single_visible, digit_is_visible, Hd.
Qed.

Lemma nonempty_ends (s : jsstring) :
  s <> [] ->
  (exists d, s = [d]) \/ (exists d mid e, s = d :: mid ++ [e]).
Proof.
  intros Hne. destruct s as [|d s]; [congruence|].
  destruct (exists_last (l := d :: s)) as (front & e & Hfe);
    [discriminate|].
  destruct front as [|d' front].
  - left. exists d. cbn in Hfe. injection Hfe as <- ->. reflexivity.
  - right. cbn in Hfe. injection Hfe as <- ->.
    exists d, front, e. reflexivity.
Qed.

Lemma all_digits_In (s : jsstring) (c : N) :
  all_digits s = true -> In c s -> is_digit c = true.
Proof.
  unfold all_digits. rewrite forallb_forall. intros H Hc. apply H, Hc.
Qed.

Lemma trim_numeral (w1 s w2 : jsstring) :
  all_whitespace w1 = true -> all_whitespace w2 = true ->
  s <> [] ->
  is_digit (hd 0%N s) = true -> is_digit (last s 0%N) = true ->
  trim (w1 ++ s ++ w2) = s.
Proof.
  intros H1 H2 Hne Hhd Hlast.
  destruct (nonempty_ends s Hne) as [(d & ->) | (d & mid & e & ->)].
  - apply (trim_digits_ends w1 [d] w2 d d []); auto.
  - cbn [hd] in Hhd.
    change (d :: mid ++ [e]) with ((d :: mid) ++ [e]) in Hlast.
    rewrite last_last in Hlast.
    apply (trim_digits_ends w1 _ w2 d e mid); auto.
Qed.

Lemma km_text_normalized (w1 s w2 w3 : jsstring) :
  all_whitespace w1 = true -> all_whitespace w2 = true ->
  all_whitespace w3 = true ->
  s <> [] ->
  is_digit (hd 0%N s) = true -> is_digit (last s 0%N) = true ->
  occurs (js "km") (w1 ++ s ++ w2) = false ->
  altValue (VString (w1 ++ s ++ w2 ++ js "km" ++ w3))
    = VNumber (parseFloat s).
Proof.
  intros H1 H2 H3 Hne Hhd Hlast Hocc. unfold altValue.
  change (js "") with (@nil N).
  replace (w1 ++ s ++ w2 ++ js "km" ++ w3)
    with ((w1 ++ s ++ w2) ++ js "km" ++ w3)
    by (rewrite <- !app_assoc; reflexivity).
  rewrite String_replace_first_km by exact Hocc.
  rewrite trim_app_whitespace by exact H3.
  rewrite trim_numeral by assumption. reflexivity.
Qed.

Lemma digit_not_structural (d : N) :
  is_digit d = true ->
  is_json_ws d = false /\ N.eqb d 123 = false /\ N.eqb d 91 = false /\
  N.eqb d 34 = false /\ N.eqb d 45 = false.
Proof.
  unfold is_digit, is_json_ws. intros H.
  apply andb_true_iff in H. destruct H as (H1 & H2).
  apply N.leb_le in H1. apply N.leb_le in H2.
  assert (Hne : forall k, (k < 48)%N \/ (57 < k)%N -> N.eqb d k = false)
    by (intros k Hk; apply N.eqb_neq; lia).
  rewrite !Hne by lia. repeat split.
Qed.

(** [JSON.parse] reads a decimal numeral as the Number of its value. *)
Lemma JSON_parse_numeral (ip fp : jsstring) :
  ip <> [] -> fp <> [] ->
  all_digits ip = true -> all_digits fp = true ->
  (ip = [48%N] \/ hd 0%N ip <> 48%N) ->
  JSON_parse (ip ++ 46%N :: fp)
    = Some (VNumber (Number_of_Q (decimal_MV ip fp 0))).
Proof.
  intros Hine Hfne Hi Hf Hzero.
  destruct ip as [|d ip]; [congruence|].
  pose proof Hi as Hi0. cbn [all_digits forallb] in Hi0.
  apply andb_true_iff in Hi0. destruct Hi0 as (Hd & _).
  destruct (digit_not_structural d Hd) as (Hws & Ho & Ha & Hq & Hm).
  unfold JSON_parse. cbn [app json_value skip_ws].
  rewrite Hws, Ho, Ha, Hq, Hm, Hd.
  unfold json_number.
  change (d :: ip ++ 46%N :: fp) with ((d :: ip) ++ 46%N :: fp).
  rewrite (take_digits_all (d :: ip) (46%N :: fp) Hi) by reflexivity.
  assert (Hlead : match d :: ip with
                  | z :: _ :: _ => N.eqb z 48
                  | _ => false
                  end = false).
  { destruct ip as [|d2 ip]; [reflexivity|].
    destruct Hzero as [H | H]; [discriminate|].
    apply N.eqb_neq. exact H. }
  rewrite Hlead. rewrite N.eqb_refl.
  rewrite <- (app_nil_r fp) at 1.
  rewrite (take_digits_all fp [] Hf) by exact I.
  destruct fp as [|f fp]; [congruence|]. reflexivity.
Qed.

(** X15.  The two wire forms of an altitude agree: a decimal numeral
    sent as a JSON number and the same numeral sent as text with a ['km']
    suffix (with or without whitespace around the numeral and the unit)
    normalize to the same Number, the binary64 value of the numeral. *)
Theorem altitude_wire_forms_agree (w1 ip fp w2 w3 : jsstring) :
  all_whitespace w1 = true -> all_whitespace w2 = true ->
  all_whitespace w3 = true ->
  ip <> [] -> fp <> [] ->
  all_digits ip = true -> all_digits fp = true ->
  (ip = [48%N] \/ hd 0%N ip <> 48%N) ->
  let numeral := ip ++ 46%N :: fp in
  exists n,
    n = Number_of_Q (decimal_MV ip fp 0) /\
    JSON_parse numeral = Some (VNumber n) /\
    altValue (VNumber n) = VNumber n /\
    altValue (VString (w1 ++ numeral ++ w2 ++ js "km" ++ w3)) = VNumber n.
Proof.
  intros H1 H2 H3 Hine Hfne Hi Hf Hzero numeral.
  exists (Number_of_Q (decimal_MV ip fp 0)).
  split; [reflexivity|].
  split; [apply JSON_parse_numeral; assumption|].
  split; [reflexivity|].
  rewrite km_text_normalized; try assumption.
  - unfold numeral. rewrite parseFloat_numeral by assumption. reflexivity.
  - unfold numeral. destruct ip; [congruence | discriminate].
  - unfold numeral. destruct ip as [|d ip]; [congruence|]. cbn [app hd].
    cbn [all_digits forallb] in Hi. apply andb_true_iff in Hi. tauto.
  - unfold numeral.
    destruct (exists_last Hfne) as (front & e & ->).
    replace (ip ++ 46%N :: front ++ [e])
      with ((ip ++ 46%N :: front) ++ [e])
      by (rewrite <- app_assoc; reflexivity).
    rewrite last_last. apply (all_digits_In _ e Hf).
    apply in_or_app. right. left. reflexivity.
  - apply (numeral_text_no_km w1 ip fp w2); assumption.
Qed.

Lemma altitude_wire_forms_agree_witness :
  exists n,
    JSON_parse (js "550.5") = Some (VNumber n) /\
    altValue (VString (js " 550.5 km ")) = VNumber n.
Proof.
  destruct (altitude_wire_forms_agree (js " ") (js "550") (js "5") (js " ")
              (js " ")) as (n & _ & Hj & _ & Ha);
    try reflexivity; try discriminate.
  - right. discriminate.
  - exists n. split; [exact Hj | exact Ha].
Defined.

(** ** Teardown is the only place a socket is closed *)

(** X16.  The component calls [close()] on a socket only in its
    cleanup: whatever events arrive short of the teardown, also the
    reconnect that replaces the socket it holds, no socket is closed by
    the component. *)
Theorem sockets_closed_only_at_teardown (st : State) (events : list Event) :
  (forall e, In e events -> e <> Unmount) ->
  closed (host (run st events)) = closed (host st).
Proof.
  revert st. induction events as [|e events IH]; intros st H; [reflexivity|].
  cbn [run fold_left].
  change (fold_left step events (step st e)) with (run (step st e) events).
  rewrite IH by (intros e0 He0; apply H; right; exact He0).
  assert (He : e <> Unmount) by (apply H; left; reflexivity).
  destruct e as [s|s data now now'|s|s code reason|id refused|];
    [| | | | | congruence].
  2: { unfold step, deliver, bind, read, ret, exec. cbn [fst snd].
       destruct (s <? sockets (host st))%nat; [|reflexivity].
       destruct (ws_onmessage_frame data now now' st)
         as (_ & _ & _ & _ & Hc & _). exact Hc. }
  all: destruct_state st; unfold find_timer; js_run; reflexivity.
Qed.

Lemma sockets_closed_only_at_teardown_witness :
  let events :=
    [SocketOpen 0; SocketMessage 0 iss_at_408km 1 2; SocketError 0;
     SocketClose 0 1006 []; TimerFires 1 false; SocketOpen 1] in
  (forall e, In e events -> e <> Unmount) /\
  closed (host (run (mount false) events)) = [] /\
  sockets (host (run (mount false) events)) = 2%nat.
Proof.
  intros events.
  assert (H : forall e, In e events -> e <> Unmount).
  { intros e He. repeat (destruct He as [<- | He]; [discriminate|]).
    destruct He. }
  split; [exact H|]. split; [|reflexivity].
  apply (sockets_closed_only_at_teardown (mount false) events H).
Defined.

(** ** The further properties at concrete inputs *)

Lemma iss_at_408km_valid : valid_position iss_at_408km iss_position.
Proof.
  eexists. split; [vm_compute; reflexivity|].
  split; [eexists; reflexivity | repeat split].
Qed.

Lemma hubble_at_540km_valid : valid_position hubble_at_540km hubble_position.
Proof.
  eexists. split; [vm_compute; reflexivity|].
  split; [eexists; reflexivity | repeat split].
Qed.

Lemma other_ids_are_untouched_witness :
  let st :=
    run (mount false) [SocketOpen 0; SocketMessage 0 iss_at_408km 1 2] in
  let d := {| payload := hubble_at_540km; clock := 3; clock' := 4 |} in
  isMounted (vars st) = true /\
  KNumber (Finite 25544) <> KNumber (Number_of_Z 20580) /\
  Map_get (KNumber (Finite 25544)) (satellites (ui (receive st d)))
    = Map_get (KNumber (Finite 25544)) (satellites (ui st)) /\
  Map_get (KNumber (Finite 25544)) (satellites (ui st)) <> None.
Proof.
  intros st d.
  assert (Hm : isMounted (vars st) = true) by reflexivity.
  assert (Hk : KNumber (Finite 25544) <> KNumber (Number_of_Z 20580))
    by (vm_compute; discriminate).
  split; [exact Hm|]. split; [exact Hk|]. split.
  - apply (other_ids_are_untouched st d hubble_position _ Hm
             hubble_at_540km_valid Hk).
  - vm_compute. discriminate.
Defined.

Lemma update_keeps_card_order_witness :
  let st :=
    run (mount false)
      [SocketOpen 0; SocketMessage 0 iss_at_408km 1 2;
       SocketMessage 0 hubble_at_540km 3 4] in
  let d := {| payload := iss_at_408km; clock := 5; clock' := 6 |} in
  isMounted (vars st) = true /\
  map fst (satellites (ui st))
    = [KNumber (Finite 25544); KNumber (Finite 20580)] /\
  map fst (satellites (ui (receive st d))) = map fst (satellites (ui st)) /\
  Map_size (satellites (ui (receive st d))) = 2%nat.
Proof.
  intros st d.
  assert (Hm : isMounted (vars st) = true) by reflexivity.
  destruct (update_keeps_card_order st d iss_position Hm iss_at_408km_valid)
    as (Hpresent & _).
  destruct Hpresent as (Hkeys & Hsize); [vm_compute; discriminate|].
  split; [exact Hm|]. split; [vm_compute; reflexivity|].
  split; [exact Hkeys | rewrite Hsize; reflexivity].
Defined.


Lemma position_without_numeric_field_breaks_list_witness :
  let st := run (mount false) [SocketOpen 0] in
  let st' := exec (ws_onmessage norad_only 1 2) st in
  isMounted (vars st) = true /\
  (exists msg, JSON_parse norad_only = Some msg /\
               numeric_record (position_record msg 2) = false) /\
  Map_size (satellites (ui st')) = 1%nat /\
  render_listing (fun _ => []) (fun _ => [])
    (ui (run st' [SocketError 0; SocketClose 0 1006 []]))
    = Throw TypeError.
Proof.
  intros st st'.
  pose (msg := VObject [(js "norad", VNumber (Finite 25544))]).
  assert (Hm : isMounted (vars st) = true) by reflexivity.
  assert (Hp : JSON_parse norad_only = Some msg) by (vm_compute; reflexivity).
  assert (Hbad : numeric_record (position_record msg 2) = false)
    by reflexivity.
  destruct (position_without_numeric_field_breaks_list
              (fun _ => []) (fun _ => []) st norad_only 1 2 msg
              Hm Hp eq_refl eq_refl Hbad) as (_ & _ & Hthrows).
  split; [exact Hm|]. split; [exists msg; split; assumption|].
  split; [reflexivity|]. apply Hthrows. reflexivity.
Defined.

